(** * Applicant management API

    A shallow embedding of the Go service (Fiber handlers over a GORM store
    and a Redis cache) and the properties of its CRUD + cache-aside core.

    Layout: the Go library functions the handlers call ([strconv],
    [regexp]), the [models.Applicant] record, the validation helpers of
    [utils], the store ([gorm]) and the cache ([redis]) as explicit state,
    the five handlers of [controllers], and then the properties. *)

From Stdlib Require Import ZArith String Ascii DecimalString DecimalPos DecimalZ Lia.
From stdpp Require Import base gmap strings list.

Local Open Scope Z_scope.

(** ** Go library functions used by the handlers *)

Module strconv.

Definition maxInt64 : Z := 2 ^ 63 - 1.
Definition minInt64 : Z := - 2 ^ 63.
Definition maxUint64 : Z := 2 ^ 64 - 1.

(** Go's [int] on the 64-bit targets the service is built for: results of
    [+], [-] and [*] wrap around modulo 2^64 into the signed range. *)
Definition wrap (z : Z) : Z := (z + 2 ^ 63) mod 2 ^ 64 - 2 ^ 63.

Inductive NumError := ErrSyntax | ErrRange.

Definition digit (c : ascii) : option Z :=
  let n := Z.of_N (N_of_ascii c) - 48 in
  if (0 <=? n) && (n <=? 9) then Some n else None.

(** The digit loop of [ParseUint] in base 10 with 64 bits: it stops with a
    syntax error at the first byte that is not a digit, and with a range
    error as soon as the value leaves the unsigned range. *)
Fixpoint parseUint (n : Z) (s : string) : Z * option NumError :=
  match s with
  | EmptyString => (n, None)
  | String c s' =>
      match digit c with
      | None => (0, Some ErrSyntax)
      | Some d =>
          if maxUint64 / 10 + 1 <=? n then (maxUint64, Some ErrRange)
          else
            let n1 := n * 10 + d in
            if maxUint64 <? n1 then (maxUint64, Some ErrRange)
            else parseUint n1 s'
      end
  end.

(** [strconv.Atoi]: an optional sign and decimal digits.  A syntax error
    yields 0; a range error yields the nearest bound of [int]. *)
Definition Atoi (s : string) : Z * option NumError :=
  let '(neg, digits) :=
    match s with
    | String "-"%char r => (true, r)
    | String "+"%char r => (false, r)
    | _ => (false, s)
    end in
  match digits with
  | EmptyString => (0, Some ErrSyntax)
  | _ =>
      match parseUint 0 digits with
      | (_, Some ErrSyntax) => (0, Some ErrSyntax)
      | (un, e) =>
          if negb neg && (2 ^ 63 <=? un) then (maxInt64, Some ErrRange)
          else if neg && (2 ^ 63 <? un) then (minInt64, Some ErrRange)
          else ((if neg then - un else un), e)
      end
  end.

(** The [%d] verb of [fmt.Sprintf] on an [int]. *)
Definition Itoa (z : Z) : string := NilZero.string_of_int (Z.to_int z).

End strconv.

(** [regexp]: the two patterns of the validation helpers are anchored at both
    ends and use ASCII classes only, so matching is a whole-string match over
    bytes.  Matching is by derivatives. *)
Module regexp.

Inductive Regexp :=
| Void
| Eps
| Class (p : ascii -> bool)
| Cat (r s : Regexp)
| Alt (r s : Regexp)
| Star (r : Regexp).

Fixpoint nullable (r : Regexp) : bool :=
  match r with
  | Void => false
  | Eps => true
  | Class _ => false
  | Cat r s => nullable r && nullable s
  | Alt r s => nullable r || nullable s
  | Star _ => true
  end.

Definition cat (r s : Regexp) : Regexp :=
  match r, s with
  | Void, _ => Void
  | _, Void => Void
  | Eps, _ => s
  | _, _ => Cat r s
  end.

Definition alt (r s : Regexp) : Regexp :=
  match r, s with
  | Void, _ => s
  | _, Void => r
  | _, _ => Alt r s
  end.

Fixpoint deriv (c : ascii) (r : Regexp) : Regexp :=
  match r with
  | Void => Void
  | Eps => Void
  | Class p => if p c then Eps else Void
  | Cat r s =>
      if nullable r then alt (cat (deriv c r) s) (deriv c s)
      else cat (deriv c r) s
  | Alt r s => alt (deriv c r) (deriv c s)
  | Star r => cat (deriv c r) (Star r)
  end.

Fixpoint MatchString (r : Regexp) (s : string) : bool :=
  match s with
  | EmptyString => nullable r
  | String c s' => MatchString (deriv c r) s'
  end.

(** Derived forms: [r+], [r?], [r{n}], [r{n,}] and [r{m,n}]. *)
Definition Plus (r : Regexp) : Regexp := Cat r (Star r).
Definition Opt (r : Regexp) : Regexp := Alt Eps r.
Fixpoint Rep (n : nat) (r : Regexp) : Regexp :=
  match n with
  | O => Eps
  | S n' => Cat r (Rep n' r)
  end.
Definition AtLeast (n : nat) (r : Regexp) : Regexp := Cat (Rep n r) (Star r).
Definition Between (m n : nat) (r : Regexp) : Regexp :=
  Cat (Rep m r) (Rep (n - m) (Opt r)).

(** Character classes. *)
Definition code (c : ascii) : Z := Z.of_N (N_of_ascii c).
Definition range (lo hi : ascii) (c : ascii) : bool :=
  (code lo <=? code c) && (code c <=? code hi).
Definition one_of (l : list ascii) (c : ascii) : bool :=
  existsb (Ascii.eqb c) l.
Definition lit (a : ascii) : Regexp := Class (Ascii.eqb a).

Definition alpha (c : ascii) : bool := range "a" "z" c || range "A" "Z" c.
Definition digit (c : ascii) : bool := range "0" "9" c.
(** [\s] is tab, newline, form feed, carriage return and space. *)
Definition space (c : ascii) : bool :=
  one_of ["009"; "010"; "012"; "013"; " "]%char c.

End regexp.

(** ** models/applicant.go *)

Module models.

(** Instants are counted in nanoseconds; 0 is the zero [time.Time].
    [gorm.DeletedAt] is a nullable time. *)
Record Applicant := {
  ID : Z;
  CreatedAt : Z;
  UpdatedAt : Z;
  DeletedAt : option Z;
  Name : string;
  Email : string;
  Position : string;
  Status : string;
  Phone : string;
  Resume : string;
  Notes : string
}.

Definition TableName (_ : Applicant) : string := "applicants".

Definition with_ID (v : Z) (a : Applicant) : Applicant :=
  Build_Applicant v (CreatedAt a) (UpdatedAt a) (DeletedAt a) (Name a)
    (Email a) (Position a) (Status a) (Phone a) (Resume a) (Notes a).
Definition with_CreatedAt (v : Z) (a : Applicant) : Applicant :=
  Build_Applicant (ID a) v (UpdatedAt a) (DeletedAt a) (Name a)
    (Email a) (Position a) (Status a) (Phone a) (Resume a) (Notes a).
Definition with_UpdatedAt (v : Z) (a : Applicant) : Applicant :=
  Build_Applicant (ID a) (CreatedAt a) v (DeletedAt a) (Name a)
    (Email a) (Position a) (Status a) (Phone a) (Resume a) (Notes a).
Definition with_DeletedAt (v : option Z) (a : Applicant) : Applicant :=
  Build_Applicant (ID a) (CreatedAt a) (UpdatedAt a) v (Name a)
    (Email a) (Position a) (Status a) (Phone a) (Resume a) (Notes a).
Definition with_Name (v : string) (a : Applicant) : Applicant :=
  Build_Applicant (ID a) (CreatedAt a) (UpdatedAt a) (DeletedAt a) v
    (Email a) (Position a) (Status a) (Phone a) (Resume a) (Notes a).
Definition with_Email (v : string) (a : Applicant) : Applicant :=
  Build_Applicant (ID a) (CreatedAt a) (UpdatedAt a) (DeletedAt a) (Name a)
    v (Position a) (Status a) (Phone a) (Resume a) (Notes a).
Definition with_Position (v : string) (a : Applicant) : Applicant :=
  Build_Applicant (ID a) (CreatedAt a) (UpdatedAt a) (DeletedAt a) (Name a)
    (Email a) v (Status a) (Phone a) (Resume a) (Notes a).
Definition with_Status (v : string) (a : Applicant) : Applicant :=
  Build_Applicant (ID a) (CreatedAt a) (UpdatedAt a) (DeletedAt a) (Name a)
    (Email a) (Position a) v (Phone a) (Resume a) (Notes a).
Definition with_Phone (v : string) (a : Applicant) : Applicant :=
  Build_Applicant (ID a) (CreatedAt a) (UpdatedAt a) (DeletedAt a) (Name a)
    (Email a) (Position a) (Status a) v (Resume a) (Notes a).
Definition with_Resume (v : string) (a : Applicant) : Applicant :=
  Build_Applicant (ID a) (CreatedAt a) (UpdatedAt a) (DeletedAt a) (Name a)
    (Email a) (Position a) (Status a) (Phone a) v (Notes a).
Definition with_Notes (v : string) (a : Applicant) : Applicant :=
  Build_Applicant (ID a) (CreatedAt a) (UpdatedAt a) (DeletedAt a) (Name a)
    (Email a) (Position a) (Status a) (Phone a) (Resume a) v.

(** The zero value of the struct, which [BodyParser] fills in. *)
Definition zero : Applicant :=
  Build_Applicant 0 0 0 None "" "" "" "" "" "" "".

End models.
Import models.

(** ** What is left open

    [strings.ToLower] and [strings.TrimSpace] follow the Unicode tables and
    [encoding/json] is a full codec; the handlers only pass values through
    them, so they are operations of a runtime the development is generic
    in.  So is what the PostgreSQL server behind [database.DB] decides:

    - [sql_first text t]: what the server answers, on the table [t], to a
      lookup of one row whose [WHERE] clause is [text] as it is (GORM puts
      it in front of [AND deleted_at IS NULL ORDER BY id LIMIT 1] without
      reading it): a row, no row ([Some None]), or the rejection of the
      statement ([None]).  Nothing is assumed of the row, not even that it
      is one of the table; the statement is a [SELECT], which reads the
      table and does not write it;
    - [stored_time]: the instant a [timestamptz] column keeps for an instant
      written to it (the column has a resolution of its own);
    - [scan]: the order in which a query without [ORDER BY] goes through the
      table; nothing is known of it but that it is the same rows.

    [demo] below is a runtime for ASCII text on which the model runs. *)
Class Runtime := {
  strings_ToLower : string -> string;
  strings_TrimSpace : string -> string;
  json_Marshal : list Applicant -> string;
  json_Unmarshal : string -> list Applicant;
  sql_first : string -> list Applicant -> option (option Applicant);
  stored_time : Z -> Z;
  scan : list Applicant -> list Applicant;
  scan_perm : forall t : list Applicant, Permutation (scan t) t
}.

(** ** utils/validation.go *)

Module utils.
Import regexp.

(** [^[a-zA-Z0-9._%+-]+@[a-zA-Z0-9.-]+\.[a-zA-Z]{2,}$] *)
Definition emailRegex : Regexp :=
  Cat (Plus (Class (fun c => alpha c || digit c
                             || one_of ["."; "_"; "%"; "+"; "-"]%char c)))
 (Cat (lit "@")
 (Cat (Plus (Class (fun c => alpha c || digit c
                             || one_of ["."; "-"]%char c)))
 (Cat (lit ".")
      (AtLeast 2 (Class alpha))))).

Definition ValidateEmail (email : string) : bool :=
  MatchString emailRegex email.

(** [^\+?[\d\s\-\(\)]{10,15}$] *)
Definition phoneRegex : Regexp :=
  Cat (Opt (lit "+"))
      (Between 10 15
         (Class (fun c => digit c || space c
                          || one_of ["-"; "("; ")"]%char c))).

Definition ValidatePhone (phone : string) : bool :=
  if String.eqb phone "" then true
  else MatchString phoneRegex phone.

Definition SanitizeString `{Runtime} (input : string) : string :=
  strings_TrimSpace input.

Definition allowedStatuses : list string :=
  ["pending"; "reviewed"; "interviewed"; "hired"; "rejected"].

Definition ValidateStatus (status : string) : bool :=
  existsb (String.eqb status) allowedStatuses.

End utils.

(** ** The world outside the handlers

    The handlers reach the store through [database.DB] and the cache through
    [rdb]; both are global handles.  The world holds what stands behind them:
    the [applicants] table with its id sequence, the cache entries with their
    expiry instants, the clock, and for each backend a script saying which of
    the coming calls fail to reach it ([true] = that call fails; an exhausted
    script means the backend is reachable).  Every call is recorded. *)

Inductive Call :=
| DBFirstByEmail (email : string)
| DBFirstByID (id : string)
| DBFind (offset limit : Z)
| DBCreate (value : Applicant)
| DBUpdates (id : Z) (values : Applicant)
| DBDelete (id : Z)
| RedisGet (key : string)
| RedisSet (key value : string) (ttl : Z)
| RedisDel (keys : list string).

Definition is_db_call (c : Call) : bool :=
  match c with
  | RedisGet _ | RedisSet _ _ _ | RedisDel _ => false
  | _ => true
  end.

Record World := {
  table : list Applicant;
  serial : Z;
  cache : gmap string (string * Z);
  now : Z;
  db_faults : list bool;
  redis_faults : list bool;
  calls : list Call
}.

Definition M (A : Type) : Type := World -> A * World.

Definition ret {A} (a : A) : M A := fun w => (a, w).
Definition bind {A B} (m : M A) (k : A -> M B) : M B :=
  fun w => let '(a, w') := m w in k a w'.

Notation "x <- m ;; k" := (bind m (fun x => k))
  (at level 100, m at next level, right associativity).
Notation "m ;;; k" := (bind m (fun _ => k))
  (at level 100, right associativity).

(** A call to the store: recorded, and answered by the head of the script. *)
Definition db_call (c : Call) : M bool :=
  fun w =>
    let reached := negb (hd false (db_faults w)) in
    (reached,
     {| table := table w; serial := serial w; cache := cache w; now := now w;
        db_faults := tl (db_faults w); redis_faults := redis_faults w;
        calls := calls w ++ [c] |}).

Definition redis_call (c : Call) : M bool :=
  fun w =>
    let reached := negb (hd false (redis_faults w)) in
    (reached,
     {| table := table w; serial := serial w; cache := cache w; now := now w;
        db_faults := db_faults w; redis_faults := tl (redis_faults w);
        calls := calls w ++ [c] |}).

Definition get_table : M (list Applicant) := fun w => (table w, w).
Definition get_now : M Z := fun w => (now w, w).
Definition get_cache : M (gmap string (string * Z)) := fun w => (cache w, w).

Definition put_table (t : list Applicant) : M unit :=
  fun w =>
    (tt, {| table := t; serial := serial w; cache := cache w; now := now w;
            db_faults := db_faults w; redis_faults := redis_faults w;
            calls := calls w |}).

Definition put_cache (m : gmap string (string * Z)) : M unit :=
  fun w =>
    (tt, {| table := table w; serial := serial w; cache := m; now := now w;
            db_faults := db_faults w; redis_faults := redis_faults w;
            calls := calls w |}).

(** [nextval] of the id sequence; a value drawn is never handed out again. *)
Definition next_serial : M Z :=
  fun w =>
    (serial w,
     {| table := table w; serial := serial w + 1; cache := cache w;
        now := now w; db_faults := db_faults w;
        redis_faults := redis_faults w; calls := calls w |}).

(** ** The store: GORM over the [applicants] table

    What the struct tags of [models.Applicant] make of the table: [id] is the
    primary key drawn from a sequence, [email] carries a unique constraint
    over all rows, the sized columns reject longer text, and [DeletedAt]
    turns deletion into a soft delete that every query filters on. *)
Module gorm.

Inductive Error :=
| ErrRecordNotFound | ErrConstraint | ErrUnavailable | ErrStatement
| ErrMissingWhereClause.

Section store.
Context `{Runtime}.

Definition live (r : Applicant) : bool :=
  match DeletedAt r with None => true | Some _ => false end.

(** [ORDER BY id LIMIT 1] *)
Definition least (l : list Applicant) : option Applicant :=
  foldr (fun r acc =>
           match acc with
           | Some m => if ID m <? ID r then Some m else Some r
           | None => Some r
           end) None l.

Definition by_email (email : string) (r : Applicant) : bool :=
  String.eqb (Email r) email.
Definition by_id (id : Z) (r : Applicant) : bool := ID r =? id.

Definition lookup (cond : Applicant -> bool) (t : list Applicant)
  : Error + Applicant :=
  match least (List.filter (fun r => live r && cond r) t) with
  | Some r => inr r
  | None => inl ErrRecordNotFound
  end.

(** The inline condition of [DB.First(&dest, id)] with [id] a text, as
    GORM builds it: a text that [strconv.Atoi] accepts is a primary key;
    the empty text is no condition; any other text goes into the [WHERE]
    clause as it is, and the server makes of it what it makes. *)
Definition inline (id : string) (t : list Applicant) : Error + Applicant :=
  match strconv.Atoi id with
  | (n, None) => lookup (by_id n) t
  | (_, Some _) =>
      if String.eqb id "" then lookup (fun _ => true) t
      else
        match sql_first id t with
        | Some (Some r) => inr r
        | Some None => inl ErrRecordNotFound
        | None => inl ErrStatement
        end
  end.

(** [DB.Where("email = ?", email).First(&dest)] and [DB.First(&dest, id)]:
    [query] is what the statement answers on the table. *)
Definition First (c : Call) (query : list Applicant -> Error + Applicant)
  : M (Error + Applicant) :=
  ok <- db_call c ;;
  if ok then t <- get_table ;; ret (query t)
  else ret (inl ErrUnavailable).

(** [LIMIT] is emitted for a limit of 0 or more, [OFFSET] for an offset
    above 0. *)
Definition window (offset limit : Z) (l : list Applicant) : list Applicant :=
  let l := if 0 <? offset then drop (Z.to_nat offset) l else l in
  if 0 <=? limit then take (Z.to_nat limit) l else l.

(** [DB.Offset(offset).Limit(limit).Find(&dest)]: no [ORDER BY], so the
    rows come in the order of the server's scan. *)
Definition Find (offset limit : Z) : M (Error + list Applicant) :=
  ok <- db_call (DBFind offset limit) ;;
  if ok then
    t <- get_table ;;
    ret (inr (window offset limit (List.filter live (scan t))))
  else ret (inl ErrUnavailable).

(** Characters of a UTF-8 text: the bytes that are not continuation bytes. *)
Fixpoint chars (s : string) : Z :=
  match s with
  | EmptyString => 0
  | String c s' =>
      (if Z.land (Z.of_N (N_of_ascii c)) 192 =? 128 then 0 else 1) + chars s'
  end.

Definition fits (r : Applicant) : bool :=
  (ID r <=? strconv.maxInt64)
  && (chars (Name r) <=? 100) && (chars (Email r) <=? 150)
  && (chars (Position r) <=? 100) && (chars (Status r) <=? 20)
  && (chars (Phone r) <=? 20).

Definition pk_free (t : list Applicant) (id : Z) : bool :=
  forallb (fun r => negb (ID r =? id)) t.
Definition email_free (t : list Applicant) (email : string) : bool :=
  forallb (fun r => negb (String.eqb (Email r) email)) t.

Definition admissible (others : list Applicant) (r : Applicant) : bool :=
  fits r && pk_free others (ID r) && email_free others (Email r).

(** The struct an insert of [value] leaves in memory: zero time stamps
    become the current time and an empty status the column default. *)
Definition prepare (now id : Z) (value : Applicant) : Applicant :=
  {| ID := id;
     CreatedAt := if CreatedAt value =? 0 then now else CreatedAt value;
     UpdatedAt := if UpdatedAt value =? 0 then now else UpdatedAt value;
     DeletedAt := DeletedAt value;
     Name := Name value; Email := Email value; Position := Position value;
     Status := if String.eqb (Status value) "" then "pending"
               else Status value;
     Phone := Phone value; Resume := Resume value; Notes := Notes value |}.

(** The row the table keeps for it: the time stamps as the columns store
    them. *)
Definition kept (r : Applicant) : Applicant :=
  {| ID := ID r;
     CreatedAt := stored_time (CreatedAt r);
     UpdatedAt := stored_time (UpdatedAt r);
     DeletedAt := option_map stored_time (DeletedAt r);
     Name := Name r; Email := Email r; Position := Position r;
     Status := Status r; Phone := Phone r; Resume := Resume r;
     Notes := Notes r |}.

(** [DB.Create(&value)]: a zero [ID] is drawn from the sequence.  The
    caller's struct is filled in; its time stamps are not read back. *)
Definition Create (value : Applicant) : M (Error + Applicant) :=
  ok <- db_call (DBCreate value) ;;
  if ok then
    now <- get_now ;;
    id <- (if ID value =? 0 then next_serial else ret (ID value)) ;;
    t <- get_table ;;
    let row := prepare now id value in
    if admissible t row then put_table (t ++ [kept row]) ;;; ret (inr row)
    else ret (inl ErrConstraint)
  else ret (inl ErrUnavailable).

(** [Updates] with a struct writes its non-zero fields only, and always
    refreshes [UpdatedAt].  [merge] is what it makes of the struct it is
    called on. *)
Definition pick (new old : string) : string :=
  if String.eqb new "" then old else new.

Definition merge (now : Z) (values r : Applicant) : Applicant :=
  {| ID := if ID values =? 0 then ID r else ID values;
     CreatedAt := if CreatedAt values =? 0 then CreatedAt r
                  else CreatedAt values;
     UpdatedAt := now;
     DeletedAt := match DeletedAt values with
                  | Some d => Some d
                  | None => DeletedAt r
                  end;
     Name := pick (Name values) (Name r);
     Email := pick (Email values) (Email r);
     Position := pick (Position values) (Position r);
     Status := pick (Status values) (Status r);
     Phone := pick (Phone values) (Phone r);
     Resume := pick (Resume values) (Resume r);
     Notes := pick (Notes values) (Notes r) |}.

(** What the same update makes of a row of the table: the columns it
    writes hold the values as the columns store them, the others stay. *)
Definition written (now : Z) (values r : Applicant) : Applicant :=
  {| ID := if ID values =? 0 then ID r else ID values;
     CreatedAt := if CreatedAt values =? 0 then CreatedAt r
                  else stored_time (CreatedAt values);
     UpdatedAt := stored_time now;
     DeletedAt := match DeletedAt values with
                  | Some d => Some (stored_time d)
                  | None => DeletedAt r
                  end;
     Name := pick (Name values) (Name r);
     Email := pick (Email values) (Email r);
     Position := pick (Position values) (Position r);
     Status := pick (Status values) (Status r);
     Phone := pick (Phone values) (Phone r);
     Resume := pick (Resume values) (Resume r);
     Notes := pick (Notes values) (Notes r) |}.

(** The rows a statement on [model] addresses:
    [WHERE id = model.ID AND deleted_at IS NULL]. *)
Definition target (model r : Applicant) : bool :=
  (ID r =? ID model) && live r.

(** [DB.Model(&model).Updates(values)]; the result is [model] with the
    written fields assigned.  A model without primary key leaves the
    statement without condition, which GORM refuses to send. *)
Definition Updates (model values : Applicant) : M (Error + Applicant) :=
  if ID model =? 0 then ret (inl ErrMissingWhereClause) else
  ok <- db_call (DBUpdates (ID model) values) ;;
  if ok then
    now <- get_now ;;
    t <- get_table ;;
    let others := List.filter (fun r => negb (target model r)) t in
    if forallb (fun r => negb (target model r)
                         || admissible others (written now values r)) t
    then
      put_table
        (map (fun r => if target model r then written now values r else r)
           t) ;;;
      ret (inr (merge now values model))
    else ret (inl ErrConstraint)
  else ret (inl ErrUnavailable).

(** [DB.Delete(&model)]: sets [deleted_at]; the row stays.  Refused
    likewise for a model without primary key. *)
Definition Delete (model : Applicant) : M (Error + unit) :=
  if ID model =? 0 then ret (inl ErrMissingWhereClause) else
  ok <- db_call (DBDelete (ID model)) ;;
  if ok then
    now <- get_now ;;
    t <- get_table ;;
    put_table
      (map (fun r => if target model r
                     then with_DeletedAt (Some (stored_time now)) r
                     else r) t) ;;;
    ret (inr tt)
  else ret (inl ErrUnavailable).

End store.
End gorm.

(** ** The cache: go-redis *)
Module redis.

(** The outcome of [Get(...).Result()]: a value, the [redis.Nil] error of
    a missing key, or another error. *)
Inductive Reply := Val (v : string) | Nil | Err.

Definition Get (key : string) : M Reply :=
  ok <- redis_call (RedisGet key) ;;
  if ok then
    m <- get_cache ;;
    now <- get_now ;;
    ret (match m !! key with
         | Some (v, expiry) => if now <? expiry then Val v else Nil
         | None => Nil
         end)
  else ret Err.

(** [Set(ctx, key, value, ttl)] *)
Definition Set_ (key value : string) (ttl : Z) : M unit :=
  ok <- redis_call (RedisSet key value ttl) ;;
  if ok then
    m <- get_cache ;;
    now <- get_now ;;
    put_cache (<[key := (value, now + ttl)]> m)
  else ret tt.

Definition Del (keys : list string) : M unit :=
  ok <- redis_call (RedisDel keys) ;;
  if ok then
    m <- get_cache ;;
    put_cache (foldr delete m keys)
  else ret tt.

End redis.

Module time.
Definition Second : Z := 1000000000.
Definition Minute : Z := 60 * Second.
End time.

(** ** Fiber: the request context and the JSON replies *)
Module fiber.

(** What a handler reads from [*fiber.Ctx]: the body as [BodyParser]
    decodes it into a [models.Applicant] ([None] when decoding fails), the
    [:id] route parameter, which is the text of the path segment whatever
    it is, and the query arguments. *)
Record Ctx := {
  body : option Applicant;
  id_param : string;
  query : gmap string string
}.

Definition BodyParser (c : Ctx) : option Applicant := body c.
Definition Params_id (c : Ctx) : string := id_param c.

(** [c.Query(key, defaultValue)]: the default stands in for an absent or
    empty argument. *)
Definition Query (c : Ctx) (key defaultValue : string) : string :=
  match query c !! key with
  | Some v => if String.eqb v "" then defaultValue else v
  | None => defaultValue
  end.

Inductive Body :=
| ErrorJSON (error : string)
| MessageJSON (message : string)
| ApplicantJSON (a : Applicant)
| PageJSON (data : list Applicant) (page limit : Z).

Record Response := { status : Z; payload : Body }.

(** [c.Status(code).JSON(v)] *)
Definition JSON (code : Z) (v : Body) : M Response :=
  ret {| status := code; payload := v |}.

End fiber.
Import fiber.

(** ** controllers: the five handlers *)
Module controllers.
Import utils.

Definition commonKeys : list string :=
  ["applicants_page_1_limit_10"; "applicants_page_1_limit_20"].

(** [fmt.Sprintf("applicants_page_%d_limit_%d", pageInt, limitInt)] *)
Definition cacheKey (pageInt limitInt : Z) : string :=
  "applicants_page_" +:+ strconv.Itoa pageInt
    +:+ "_limit_" +:+ strconv.Itoa limitInt.

(** [(pageInt - 1) * limitInt] on [int] *)
Definition offsetOf (pageInt limitInt : Z) : Z :=
  strconv.wrap (strconv.wrap (pageInt - 1) * limitInt).

Section handlers.
Context `{Runtime}.

Definition CreateApplicant (c : Ctx) : M Response :=
  match BodyParser c with
  | None => JSON 400 (ErrorJSON "Invalid request body")
  | Some applicant =>
    (* Sanitize input *)
    let applicant := with_Name (SanitizeString (Name applicant)) applicant in
    let applicant :=
      with_Email (strings_ToLower (SanitizeString (Email applicant)))
        applicant in
    let applicant :=
      with_Position (SanitizeString (Position applicant)) applicant in
    let applicant := with_Phone (SanitizeString (Phone applicant)) applicant in
    let applicant := with_Notes (SanitizeString (Notes applicant)) applicant in
    (* Validate required fields *)
    if String.eqb (Name applicant) "" || String.eqb (Email applicant) ""
       || String.eqb (Position applicant) ""
    then JSON 400 (ErrorJSON "Name, email, and position are required")
    (* Validate email format *)
    else if negb (ValidateEmail (Email applicant))
    then JSON 400 (ErrorJSON "Invalid email format")
    (* Validate phone if provided *)
    else if negb (String.eqb (Phone applicant) "")
            && negb (ValidatePhone (Phone applicant))
    then JSON 400 (ErrorJSON "Invalid phone number format")
    (* Set default status if not provided *)
    else if negb (String.eqb (Status applicant) "")
            && negb (ValidateStatus (Status applicant))
    then JSON 400 (ErrorJSON "Invalid status value")
    else
      let applicant :=
        if String.eqb (Status applicant) ""
        then with_Status "pending" applicant else applicant in
      (* Check if email already exists *)
      existing <- gorm.First (DBFirstByEmail (Email applicant))
                    (gorm.lookup (gorm.by_email (Email applicant))) ;;
      match existing with
      | inr _ => JSON 409 (ErrorJSON "Email already exists")
      | inl _ =>
        created <- gorm.Create applicant ;;
        match created with
        | inl _ => JSON 500 (ErrorJSON "Failed to create applicant")
        | inr applicant =>
          (* Clear common cache keys *)
          redis.Del commonKeys ;;;
          JSON 201 (ApplicantJSON applicant)
        end
      end
  end.

Definition GetApplicants (c : Ctx) : M Response :=
  let page := Query c "page" "1" in
  let limit := Query c "limit" "10" in
  let pageInt := fst (strconv.Atoi page) in
  let limitInt := fst (strconv.Atoi limit) in
  let cacheKey := cacheKey pageInt limitInt in
  reply <- redis.Get cacheKey ;;
  match reply with
  | redis.Nil =>
    (* Cache miss - fetch from database *)
    let offset := offsetOf pageInt limitInt in
    found <- gorm.Find offset limitInt ;;
    match found with
    | inl _ => JSON 500 (ErrorJSON "Failed to fetch applicants")
    | inr applicants =>
      (* Cache the result for 3 minutes *)
      let jsonData := json_Marshal applicants in
      redis.Set_ cacheKey jsonData (time.Minute * 3) ;;;
      JSON 200 (PageJSON applicants pageInt limitInt)
    end
  | redis.Err =>
    (* Fallback to database if Redis fails *)
    let offset := offsetOf pageInt limitInt in
    found <- gorm.Find offset limitInt ;;
    match found with
    | inl _ => JSON 500 (ErrorJSON "Failed to fetch applicants")
    | inr applicants => JSON 200 (PageJSON applicants pageInt limitInt)
    end
  | redis.Val val =>
    (* Cache hit *)
    let applicants := json_Unmarshal val in
    JSON 200 (PageJSON applicants pageInt limitInt)
  end.

Definition GetApplicant (c : Ctx) : M Response :=
  let id := Params_id c in
  found <- gorm.First (DBFirstByID id) (gorm.inline id) ;;
  match found with
  | inl _ => JSON 404 (ErrorJSON "Applicant not found")
  | inr applicant => JSON 200 (ApplicantJSON applicant)
  end.

Definition UpdateApplicant (c : Ctx) : M Response :=
  let id := Params_id c in
  (* Check if applicant exists *)
  found <- gorm.First (DBFirstByID id) (gorm.inline id) ;;
  match found with
  | inl _ => JSON 404 (ErrorJSON "Applicant not found")
  | inr applicant =>
    (* Parse update data *)
    match BodyParser c with
    | None => JSON 400 (ErrorJSON "Invalid request body")
    | Some updateData =>
      (* Update applicant *)
      updated <- gorm.Updates applicant updateData ;;
      match updated with
      | inl _ => JSON 500 (ErrorJSON "Failed to update applicant")
      | inr applicant =>
        redis.Del commonKeys ;;;
        JSON 200 (ApplicantJSON applicant)
      end
    end
  end.

Definition DeleteApplicant (c : Ctx) : M Response :=
  let id := Params_id c in
  (* Check if applicant exists *)
  found <- gorm.First (DBFirstByID id) (gorm.inline id) ;;
  match found with
  | inl _ => JSON 404 (ErrorJSON "Applicant not found")
  | inr applicant =>
    (* Delete applicant *)
    deleted <- gorm.Delete applicant ;;
    match deleted with
    | inl _ => JSON 500 (ErrorJSON "Failed to delete applicant")
    | inr _ =>
      (* Clear cache *)
      redis.Del commonKeys ;;;
      JSON 200 (MessageJSON "Applicant deleted successfully")
    end
  end.

End handlers.
End controllers.

(** ** A runtime for ASCII text

    Case mapping and trimming as Go performs them on ASCII text, and a
    length-prefixed rendering of records standing in for JSON. *)
Module demo.

Definition is_space (c : ascii) : bool :=
  regexp.one_of ["009"; "010"; "011"; "012"; "013"; " "]%char c.

Fixpoint trim_left (s : string) : string :=
  match s with
  | String c s' => if is_space c then trim_left s' else s
  | EmptyString => EmptyString
  end.

Fixpoint trim_right (s : string) : string :=
  match s with
  | String c s' =>
      let r := trim_right s' in
      if is_space c && String.eqb r "" then EmptyString else String c r
  | EmptyString => EmptyString
  end.

Definition TrimSpace (s : string) : string := trim_right (trim_left s).

Definition lower (c : ascii) : ascii :=
  if regexp.range "A" "Z" c
  then ascii_of_N (N_of_ascii c + 32) else c.

Fixpoint ToLower (s : string) : string :=
  match s with
  | String c s' => String (lower c) (ToLower s')
  | EmptyString => EmptyString
  end.

(** Rendering: a number is its decimal form followed by [;], a text its
    length, [:] and its bytes. *)
Definition put_Z (z : Z) : string := strconv.Itoa z +:+ ";".
Definition put_string (s : string) : string :=
  strconv.Itoa (Z.of_nat (String.length s)) +:+ ":" +:+ s.
Definition put_time (t : option Z) : string :=
  match t with Some z => "s" +:+ put_Z z | None => "n" end.

Definition put_applicant (a : Applicant) : string :=
  put_Z (ID a) +:+ put_Z (CreatedAt a) +:+ put_Z (UpdatedAt a)
    +:+ put_time (DeletedAt a) +:+ put_string (Name a)
    +:+ put_string (Email a) +:+ put_string (Position a)
    +:+ put_string (Status a) +:+ put_string (Phone a)
    +:+ put_string (Resume a) +:+ put_string (Notes a).

Definition Marshal (l : list Applicant) : string :=
  foldr (fun a s => put_applicant a +:+ s) "" l.

Fixpoint split_at (sep : ascii) (s : string) : option (string * string) :=
  match s with
  | EmptyString => None
  | String c s' =>
      if Ascii.eqb c sep then Some (EmptyString, s')
      else match split_at sep s' with
           | Some (a, b) => Some (String c a, b)
           | None => None
           end
  end.

Fixpoint split_n (n : nat) (s : string) : option (string * string) :=
  match n, s with
  | O, _ => Some (EmptyString, s)
  | S n', String c s' =>
      match split_n n' s' with
      | Some (a, b) => Some (String c a, b)
      | None => None
      end
  | S _, EmptyString => None
  end.

Definition get_num (sep : ascii) (s : string) : option (Z * string) :=
  '(d, rest) ← split_at sep s;
  i ← NilZero.int_of_string d;
  Some (Z.of_int i, rest).

Definition get_Z : string -> option (Z * string) := get_num ";".

Definition get_string (s : string) : option (string * string) :=
  '(n, rest) ← get_num ":" s;
  split_n (Z.to_nat n) rest.

Definition get_time (s : string) : option (option Z * string) :=
  match s with
  | String "n" rest => Some (None, rest)
  | String "s" rest => '(z, rest) ← get_Z rest; Some (Some z, rest)
  | _ => None
  end.

Definition get_applicant (s : string) : option (Applicant * string) :=
  '(id, s) ← get_Z s;
  '(created, s) ← get_Z s;
  '(updated, s) ← get_Z s;
  '(deleted, s) ← get_time s;
  '(name, s) ← get_string s;
  '(email, s) ← get_string s;
  '(position, s) ← get_string s;
  '(status, s) ← get_string s;
  '(phone, s) ← get_string s;
  '(resume, s) ← get_string s;
  '(notes, s) ← get_string s;
  Some (Build_Applicant id created updated deleted name email position
          status phone resume notes, s).

Fixpoint get_list (fuel : nat) (s : string) : list Applicant :=
  match fuel with
  | O => []
  | S fuel' =>
      match get_applicant s with
      | Some (a, rest) => a :: get_list fuel' rest
      | None => []
      end
  end.

Definition Unmarshal (s : string) : list Applicant :=
  get_list (String.length s) s.

(** A server that understands two conditions, [true] and [1=1], which
    hold of every row, and rejects every other text; that keeps
    microseconds; and that scans the table in the order of insertion. *)
Definition first_where (text : string) (t : list Applicant)
  : option (option Applicant) :=
  if String.eqb text "true" || String.eqb text "1=1"
  then Some (gorm.least (List.filter gorm.live t))
  else None.

Definition microseconds (t : Z) : Z := t / 1000 * 1000.

Definition runtime : Runtime :=
  {| strings_ToLower := ToLower;
     strings_TrimSpace := TrimSpace;
     json_Marshal := Marshal;
     json_Unmarshal := Unmarshal;
     sql_first := first_where;
     stored_time := microseconds;
     scan := fun t => t;
     scan_perm := fun t => Permutation_refl t |}.

(** A fresh deployment: empty table, empty cache, both backends up. *)
Definition boot (start : Z) : World :=
  {| table := []; serial := 1; cache := ∅; now := start;
     db_faults := []; redis_faults := []; calls := [] |}.

(** The same world with the given fault scripts, and at a later time. *)
Definition with_faults (db redis : list bool) (w : World) : World :=
  {| table := table w; serial := serial w; cache := cache w; now := now w;
     db_faults := db; redis_faults := redis; calls := calls w |}.
Definition later (d : Z) (w : World) : World :=
  {| table := table w; serial := serial w; cache := cache w;
     now := now w + d; db_faults := db_faults w;
     redis_faults := redis_faults w; calls := calls w |}.

Definition john : Applicant :=
  {| ID := 0; CreatedAt := 0; UpdatedAt := 0; DeletedAt := None;
     Name := "John Doe"; Email := " John@Example.com ";
     Position := "Software Engineer"; Status := "";
     Phone := "+1234567890"; Resume := "";
     Notes := "Experienced developer" |}.

Definition shouting_john : Applicant :=
  with_Email "JOHN@EXAMPLE.COM" (with_Name "J. Doe" john).

Definition post (a : Applicant) : Ctx :=
  {| body := Some a; id_param := ""; query := ∅ |}.
Definition put (id : string) (a : Applicant) : Ctx :=
  {| body := Some a; id_param := id; query := ∅ |}.
Definition by_id (id : string) : Ctx :=
  {| body := None; id_param := id; query := ∅ |}.
Definition list_with (args : list (string * string)) : Ctx :=
  {| body := None; id_param := ""; query := list_to_map args |}.

End demo.

(** ** Views of a run

    The vocabulary of the properties: what a reply and the recorded calls
    show, the values a handler computes on its way, and the outcomes of its
    store calls in terms of the world it starts from. *)
Section views.
Context `{Runtime}.
Import controllers utils.

Fixpoint occurs (c : ascii) (s : string) : bool :=
  match s with
  | EmptyString => false
  | String c' s' => Ascii.eqb c' c || occurs c s'
  end.



Definition cache_calls (cs : list Call) : list Call :=
  List.filter (fun c => negb (is_db_call c)) cs.

(** The calls a run from [w] to [w'] added. *)
Definition added (w w' : World) (cs : list Call) : Prop :=
  calls w' = calls w ++ cs.

(** The entry a reachable cache returns for [key]. *)
Definition cached (w : World) (key : string) : option string :=
  match cache w !! key with
  | Some (v, expiry) => if now w <? expiry then Some v else None
  | None => None
  end.

Definition db_down (w : World) : bool := hd false (db_faults w).

Definition redis_down (w : World) : bool := hd false (redis_faults w).

(** The pagination values of a request, as the handler computes them. *)
Definition pageInt (c : Ctx) : Z := fst (strconv.Atoi (Query c "page" "1")).

Definition limitInt (c : Ctx) : Z :=
  fst (strconv.Atoi (Query c "limit" "10")).

(** The rows the store returns for a request. *)
Definition page_rows (c : Ctx) (w : World) : list Applicant :=
  gorm.window (offsetOf (pageInt c) (limitInt c)) (limitInt c)
    (List.filter gorm.live (scan (table w))).

Definition fetch_failed : Response :=
  {| status := 500; payload := ErrorJSON "Failed to fetch applicants" |}.



(** Reading a text as a decimal number: an optional sign, then the
    digits.  [magnitude] is the number the leading digits write, and the
    text is a [numeral] when there is at least one digit and nothing
    else. *)
Definition negative (s : string) : bool :=
  match s with String "-"%char _ => true | _ => false end.

Definition unsigned (s : string) : string :=
  match s with
  | String "-"%char r => r
  | String "+"%char r => r
  | _ => s
  end.

Fixpoint leading (n : Z) (s : string) : Z :=
  match s with
  | String c s' =>
      match strconv.digit c with
      | Some d => leading (n * 10 + d) s'
      | None => n
      end
  | EmptyString => n
  end.

Fixpoint digits_only (s : string) : bool :=
  match s with
  | String c s' =>
      match strconv.digit c with Some _ => digits_only s' | None => false end
  | EmptyString => true
  end.

Definition magnitude (s : string) : Z := leading 0 (unsigned s).

Definition numeral (s : string) : bool :=
  negb (String.eqb (unsigned s) "") && digits_only (unsigned s).

Definition value (s : string) : Z :=
  if negative s then - magnitude s else magnitude s.

Definition clamp (z : Z) : Z :=
  Z.max strconv.minInt64 (Z.min strconv.maxInt64 z).

(** The value the handler gives it: the default when it is absent or
    empty; when it is a decimal number, that number, or the nearest bound
    of [int] if it is out of range; and when it is not a number, 0, unless
    the digits it starts with already exceed the unsigned 64-bit range, in
    which case it also counts as the bound on the side of its sign. *)
Definition actual (arg : option string) (default : Z) : Z :=
  match arg with
  | None => default
  | Some s =>
      if String.eqb s "" then default
      else if numeral s || (strconv.maxUint64 <? magnitude s)
      then clamp (value s)
      else 0
  end.

Definition not_found : Response :=
  {| status := 404; payload := ErrorJSON "Applicant not found" |}.

(** What the by-id lookup that opens Get, Update and Delete answers. *)
Definition found (c : Ctx) (w : World) : gorm.Error + Applicant :=
  if db_down w then inl gorm.ErrUnavailable
  else gorm.inline (id_param c) (table w).

(** The request names the applicant with identifier [id]: its [:id] is a
    decimal number, as the routes document it. *)
Definition names (c : Ctx) (id : Z) : Prop :=
  strconv.Atoi (id_param c) = (id, None).

(** The table after a soft delete, at [now], of the rows [model]
    addresses. *)
Definition soft_deleted (now : Z) (model : Applicant) (t : list Applicant)
  : list Applicant :=
  map (fun r => if gorm.target model r
                then with_DeletedAt (Some (stored_time now)) r
                else r) t.

(** The steps of the handler before it turns to the store: the
    sanitizing assignments, the four checks, the default status. *)
Definition sanitize (a : Applicant) : Applicant :=
  let a := with_Name (SanitizeString (Name a)) a in
  let a := with_Email (strings_ToLower (SanitizeString (Email a))) a in
  let a := with_Position (SanitizeString (Position a)) a in
  let a := with_Phone (SanitizeString (Phone a)) a in
  with_Notes (SanitizeString (Notes a)) a.

Definition checks (a : Applicant) : bool :=
  negb (String.eqb (Name a) "" || String.eqb (Email a) ""
        || String.eqb (Position a) "")
  && ValidateEmail (Email a)
  && negb (negb (String.eqb (Phone a) "") && negb (ValidatePhone (Phone a)))
  && negb (negb (String.eqb (Status a) "")
           && negb (ValidateStatus (Status a))).

Definition default_status (a : Applicant) : Applicant :=
  if String.eqb (Status a) "" then with_Status "pending" a else a.

(** A body the handler accepts, and the record it then takes to the
    store. *)
Definition accepted (a : Applicant) : bool := checks (sanitize a).

Definition candidate (a : Applicant) : Applicant :=
  default_status (sanitize a).

(** The e-mail address in the form the handler compares and stores. *)
Definition normalized (email : string) : string :=
  strings_ToLower (strings_TrimSpace email).

(** The rest of the handler: uniqueness lookup, insert, invalidation. *)
Definition store_new (applicant : Applicant) : M Response :=
  existing <- gorm.First (DBFirstByEmail (Email applicant))
                (gorm.lookup (gorm.by_email (Email applicant))) ;;
  match existing with
  | inr _ => JSON 409 (ErrorJSON "Email already exists")
  | inl _ =>
    created <- gorm.Create applicant ;;
    match created with
    | inl _ => JSON 500 (ErrorJSON "Failed to create applicant")
    | inr applicant =>
      redis.Del commonKeys ;;;
      JSON 201 (ApplicantJSON applicant)
    end
  end.

(** What the uniqueness lookup answers. *)
Definition existing (a : Applicant) (w : World) : gorm.Error + Applicant :=
  if db_down w then inl gorm.ErrUnavailable
  else gorm.lookup (gorm.by_email (Email a)) (table w).

(** The world after the uniqueness lookup. *)
Definition after_lookup (a : Applicant) (w : World) : World :=
  {| table := table w; serial := serial w; cache := cache w; now := now w;
     db_faults := tl (db_faults w); redis_faults := redis_faults w;
     calls := calls w ++ [DBFirstByEmail (Email a)] |}.

(** The record an insert answers with and the id it carries; the table
    keeps [gorm.kept] of it. *)
Definition new_id (a : Applicant) (w : World) : Z :=
  if ID a =? 0 then serial w else ID a.

Definition new_row (a : Applicant) (w : World) : Applicant :=
  gorm.prepare (now w) (new_id a w) a.

(** The insert goes through when it reaches the store and the table
    takes the row. *)
Definition inserts (a : Applicant) (w : World) : bool :=
  negb (hd false (tl (db_faults w)))
  && gorm.admissible (table w) (new_row a w).

(** The table after an update of the rows [model] addresses. *)
Definition updated (now : Z) (model values : Applicant)
    (t : list Applicant) : list Applicant :=
  map (fun r => if gorm.target model r then gorm.written now values r
                else r) t.

(** The update goes through when the record found has a primary key, the
    statement reaches the store and the constraints allow every row it
    rewrites. *)
Definition updates (model values : Applicant) (w : World) : bool :=
  negb (ID model =? 0)
  && negb (hd false (tl (db_faults w)))
  && forallb
       (fun r => negb (gorm.target model r)
                 || gorm.admissible
                      (List.filter (fun r => negb (gorm.target model r))
                         (table w))
                      (gorm.written (now w) values r))
       (table w).

Definition cleared (w : World) : gmap string (string * Z) :=
  if redis_down w then cache w else foldr delete (cache w) commonKeys.

(** Likewise the soft delete. *)
Definition deletes (model : Applicant) (w : World) : bool :=
  negb (ID model =? 0) && negb (hd false (tl (db_faults w))).

(** The store call of an Update or Delete that failed, if one was made. *)
Definition attempt (model : Applicant) (c : Call) : list Call :=
  if ID model =? 0 then [] else [c].

Definition text_fields : list (Applicant -> string) :=
  [Name; Email; Position; Status; Phone; Resume; Notes].

(** Row [r'] stands where [r] stood, and for the update body [u]: a text
    field that [u] leaves empty is as before, and a text field that was not
    empty is not empty now; likewise the id, the creation time and the
    deletion time are as before when [u] leaves them zero. *)
Definition frame (u r r' : Applicant) : Prop :=
  Forall (fun f : Applicant -> string =>
            (f u = "" -> f r' = f r) /\ (f r <> "" -> f r' <> ""))
    text_fields
  /\ (ID u = 0 -> ID r' = ID r)
  /\ (CreatedAt u = 0 -> CreatedAt r' = CreatedAt r)
  /\ (DeletedAt u = None -> DeletedAt r' = DeletedAt r).

(** The frame as the specification words it, every field included: the
    modification time too is as before when the body leaves it zero. *)
Definition claimed_frame (u r r' : Applicant) : Prop :=
  frame u r r' /\ (UpdatedAt u = 0 -> UpdatedAt r' = UpdatedAt r).

Inductive Mutation := Create | Update | Delete.

Definition handler (m : Mutation) : Ctx -> M Response :=
  match m with
  | Create => CreateApplicant
  | Update => UpdateApplicant
  | Delete => DeleteApplicant
  end.

(** The status of a mutation that went through. *)
Definition success (m : Mutation) : Z :=
  match m with Create => 201 | Update => 200 | Delete => 200 end.

Definition consistent (t : list Applicant) : Prop :=
  List.NoDup (map ID t) /\ List.NoDup (map Email t).

End views.

(** ** A deployment to run

    The service on the ASCII runtime, after John Doe applied. *)
Section scenario.
Import controllers.
#[local] Existing Instance demo.runtime.

(** John Doe has applied (id 1). *)
Definition with_john : World :=
  Eval vm_compute in
    snd (@CreateApplicant demo.runtime (demo.post demo.john)
           (demo.boot 1000)).

(** ... the first page was listed ... *)
Definition john_listed : World :=
  Eval vm_compute in
    snd (@GetApplicants demo.runtime (demo.list_with []) with_john).

(** ... and he was deleted again. *)
Definition john_deleted : World :=
  Eval vm_compute in snd (DeleteApplicant (demo.by_id "1") with_john).

Definition interviewed : Applicant :=
  with_Notes "Passed technical interview"
    (with_Status "interviewed" models.zero).

(** A body for John Doe that carries a deletion time, and the deployment
    after it was posted to a fresh one. *)
Definition departed_john : Applicant :=
  with_DeletedAt (Some 2000) demo.john.

Definition with_departed : World :=
  Eval vm_compute in
    snd (@CreateApplicant demo.runtime (demo.post departed_john)
           (demo.boot 1000)).

(** John Doe's address was rewritten in capitals by an Update, and then he
    was deleted. *)
Definition capitals : Applicant :=
  with_Email "JOHN@EXAMPLE.COM" models.zero.

Definition john_capitals : World :=
  Eval vm_compute in
    snd (UpdateApplicant (demo.put "1" capitals) (demo.later 5000 with_john)).

Definition capitals_deleted : World :=
  Eval vm_compute in snd (DeleteApplicant (demo.by_id "1") john_capitals).

End scenario.

(** ** middleware/auth.go *)
Module middleware.

(** [strings.HasPrefix] *)
Fixpoint HasPrefix (s prefix : string) {struct prefix} : bool :=
  match prefix with
  | EmptyString => true
  | String a p =>
      match s with
      | String b s' => Ascii.eqb a b && HasPrefix s' p
      | EmptyString => false
      end
  end.

(** [s[n:]] *)
Fixpoint from (n : nat) (s : string) : string :=
  match n, s with
  | S n', String _ s' => from n' s'
  | _, _ => s
  end.

(** [strings.TrimPrefix] *)
Definition TrimPrefix (s prefix : string) : string :=
  if HasPrefix s prefix then from (String.length prefix) s else s.

(** What the middleware reads from the request: the path and the
    [Authorization] header (empty when the header is absent). *)
Record Request := { Path : string; Authorization : string }.

(** The middleware hands over to the next handler, with the values it stored
    in the request's locals, or replies itself. *)
Inductive Outcome :=
| Next (locals : list (string * string))
| Stop (r : Response).

Definition unauthorized (error : string) : Outcome :=
  Stop {| status := 401; payload := ErrorJSON error |}.

Definition SimpleAuth (c : Request) : Outcome :=
  (* Skip auth for health check *)
  if String.eqb (Path c) "/health" then Next []
  else
    (* Get Authorization header *)
    let auth := Authorization c in
    if String.eqb auth "" then unauthorized "Authorization header required"
    (* Check if it's a Bearer token *)
    else if negb (HasPrefix auth "Bearer ")
    then unauthorized "Invalid authorization format"
    else
      (* Simple token validation *)
      let token := TrimPrefix auth "Bearer " in
      if String.eqb token "" || (Z.of_nat (String.length token) <? 10)
      then unauthorized "Invalid token"
      else
        (* Add user info to context *)
        Next [("user_id", "user_123"); ("user_role", "admin")].

End middleware.

(** ** Views of the patterns and of the middleware

    The language of a pattern, the character classes of the two validation
    patterns, and the requests the authentication middleware lets through. *)
Section more_views.
Import regexp middleware.

(** [lang r s]: the text [s] is in the language of the pattern [r]. *)
Inductive lang : Regexp -> string -> Prop :=
| lang_Eps : lang Eps ""
| lang_Class p c : p c = true -> lang (Class p) (String c "")
| lang_Cat r s x y : lang r x -> lang s y -> lang (Cat r s) (x +:+ y)
| lang_Alt_l r s x : lang r x -> lang (Alt r s) x
| lang_Alt_r r s x : lang s x -> lang (Alt r s) x
| lang_Star_nil r : lang (Star r) ""
| lang_Star_app r x y : lang r x -> lang (Star r) y -> lang (Star r) (x +:+ y).

Fixpoint all (p : ascii -> bool) (s : string) : bool :=
  match s with
  | EmptyString => true
  | String c s' => p c && all p s'
  end.

Definition email_local (c : ascii) : bool :=
  alpha c || digit c || one_of ["."; "_"; "%"; "+"; "-"]%char c.
Definition email_domain (c : ascii) : bool :=
  alpha c || digit c || one_of ["."; "-"]%char c.
Definition phone_char (c : ascii) : bool :=
  digit c || space c || one_of ["-"; "("; ")"]%char c.

(** A request that carries a bearer token of ten bytes or more. *)
Definition bearer (c : Request) : Prop :=
  exists token, Authorization c = "Bearer " +:+ token
                /\ (10 <= String.length token)%nat.

End more_views.

(** ** A second applicant *)
Section scenario_more.
Import controllers.
#[local] Existing Instance demo.runtime.

Definition jane : Applicant :=
  {| ID := 0; CreatedAt := 0; UpdatedAt := 0; DeletedAt := None;
     Name := "Jane Roe"; Email := "jane@example.org";
     Position := "Designer"; Status := "reviewed";
     Phone := "(555) 123-4567"; Resume := "  portfolio  ";
     Notes := "" |}.

(** John Doe and Jane Roe have applied (ids 1 and 2). *)
Definition with_two : World :=
  Eval vm_compute in
    snd (@CreateApplicant demo.runtime (demo.post jane) with_john).

(** ... and the second page was listed. *)
Definition page2_listed : World :=
  Eval vm_compute in
    snd (@GetApplicants demo.runtime (demo.list_with [("page", "2")])
           with_two).

End scenario_more.

(** * Properties *)

(** ** Cache keys *)
Section cache_keys.
Import controllers.

Lemma uint_digits_only (d : Decimal.uint) :
  occurs "_" (NilEmpty.string_of_uint d) = false.
Proof. induction d; simpl; auto. Qed.

Lemma Itoa_no_underscore (z : Z) : occurs "_" (strconv.Itoa z) = false.
Proof.
  unfold strconv.Itoa, NilZero.string_of_int, NilZero.string_of_uint.
  destruct (Z.to_int z) as [d | d]; destruct d; simpl;
    auto using uint_digits_only.
Qed.

Lemma Itoa_inj (z z' : Z) : strconv.Itoa z = strconv.Itoa z' -> z = z'.
Proof.
  unfold strconv.Itoa. intros E.
  assert (N : forall n, Z.to_int n <> Decimal.Pos Decimal.Nil
                        /\ Z.to_int n <> Decimal.Neg Decimal.Nil).
  { intros [| q | q]; simpl; split; try discriminate;
      intros [= Q]; exact (DecimalPos.Unsigned.to_uint_nonnil q Q). }
  apply to_int_inj.
  assert (S : Some (Z.to_int z) = Some (Z.to_int z')).
  { rewrite <- (NilZero.isi (Z.to_int z)) by apply N.
    rewrite <- (NilZero.isi (Z.to_int z')) by apply N.
    now rewrite E. }
  now injection S.
Qed.

(** A text free of the separator is delimited by its first occurrence. *)
Lemma split_unique (c : ascii) (a a' r r' : string) :
  occurs c a = false -> occurs c a' = false ->
  a +:+ String c r = a' +:+ String c r' -> a = a' /\ r = r'.
Proof.
  revert a'. induction a as [| x a IH]; intros [| x' a'] Ha Ha' E;
    simpl in *.
  - injection E as ->. auto.
  - injection E as -> _. rewrite Ascii.eqb_refl in Ha'. discriminate.
  - injection E as -> _. rewrite Ascii.eqb_refl in Ha. discriminate.
  - injection E as -> E.
    apply orb_false_elim in Ha as [_ Ha].
    apply orb_false_elim in Ha' as [_ Ha'].
    destruct (IH a' Ha Ha' E) as [-> ->]. auto.
Qed.

(** C7: the cache key is a function of the (page, limit) pair, and an
    injective one: two pairs derive the same key exactly when they are the
    same pair, so distinct pairs never share a key. *)
Theorem cacheKey_injective (page limit page' limit' : Z) :
  cacheKey page limit = cacheKey page' limit'
  <-> page = page' /\ limit = limit'.
Proof.
  split.
  - unfold cacheKey. intros E. simpl in E.
    injection E as E.
    apply split_unique in E; auto using Itoa_no_underscore.
    destruct E as [Ep E]. injection E as E.
    split; apply Itoa_inj; assumption.
  - now intros [-> ->].
Qed.

End cache_keys.

(** ** Reading the handlers

    The handlers are straight-line code over the primitives of the world, so
    their properties follow by running them symbolically: unfold the
    primitives and split on what the scripts and the tables answer. *)

Ltac unfold_world :=
  unfold JSON, redis.Get, redis.Set_, redis.Del, gorm.Find, gorm.First,
    gorm.Create, gorm.Updates, gorm.Delete in *;
  unfold db_call, redis_call, get_table, get_now, get_cache, put_table,
    put_cache, next_serial in *;
  unfold bind, ret in *; cbn beta in *.

Lemma bind_run {A B} (m : M A) (k : A -> M B) (w : World) :
  bind m k w = k (fst (m w)) (snd (m w)).
Proof. unfold bind. destruct (m w). reflexivity. Qed.

(** ** Listing *)
Section listing.
Context `{Runtime}.
Import controllers.

(** The three paths of the handler, by what the cache answers. *)
Lemma GetApplicants_hit (c : Ctx) (w : World) (v : string) :
  redis_down w = false ->
  cached w (cacheKey (pageInt c) (limitInt c)) = Some v ->
  GetApplicants c w =
    ({| status := 200;
        payload := PageJSON (json_Unmarshal v) (pageInt c) (limitInt c) |},
     {| table := table w; serial := serial w; cache := cache w;
        now := now w; db_faults := db_faults w;
        redis_faults := tl (redis_faults w);
        calls := calls w ++ [RedisGet (cacheKey (pageInt c) (limitInt c))] |}).
Proof.
  unfold redis_down, cached, GetApplicants, pageInt, limitInt.
  intros Hup Hc. unfold_world. rewrite Hup. simpl.
  destruct (cache w !! _) as [[v' e] |]; [| discriminate].
  destruct (now w <? e); [| discriminate].
  now injection Hc as ->.
Qed.

Lemma GetApplicants_miss (c : Ctx) (w : World) :
  redis_down w = false ->
  cached w (cacheKey (pageInt c) (limitInt c)) = None ->
  GetApplicants c w =
    let key := cacheKey (pageInt c) (limitInt c) in
    let find := DBFind (offsetOf (pageInt c) (limitInt c)) (limitInt c) in
    if db_down w then
      (fetch_failed,
       {| table := table w; serial := serial w; cache := cache w;
          now := now w; db_faults := tl (db_faults w);
          redis_faults := tl (redis_faults w);
          calls := (calls w ++ [RedisGet key]) ++ [find] |})
    else
      let set := RedisSet key (json_Marshal (page_rows c w))
                   (time.Minute * 3) in
      ({| status := 200;
          payload := PageJSON (page_rows c w) (pageInt c) (limitInt c) |},
       {| table := table w; serial := serial w;
          cache := if hd false (tl (redis_faults w)) then cache w
                   else <[key := (json_Marshal (page_rows c w),
                                  now w + time.Minute * 3)]> (cache w);
          now := now w; db_faults := tl (db_faults w);
          redis_faults := tl (tl (redis_faults w));
          calls := ((calls w ++ [RedisGet key]) ++ [find]) ++ [set] |}).
Proof.
  unfold redis_down, db_down, cached, GetApplicants, page_rows, pageInt,
    limitInt.
  intros Hup Hc. unfold_world. rewrite Hup. simpl.
  assert (R : match cache w !! cacheKey (strconv.Atoi (Query c "page" "1")).1
                      (strconv.Atoi (Query c "limit" "10")).1 with
              | Some (v, expiry) => if now w <? expiry then redis.Val v
                                    else redis.Nil
              | None => redis.Nil
              end = redis.Nil).
  { destruct (cache w !! _) as [[v' e] |]; [| reflexivity].
    destruct (now w <? e); [discriminate | reflexivity]. }
  rewrite R. simpl.
  destruct (hd false (db_faults w)); simpl; [reflexivity |].
  destruct (hd false (tl (redis_faults w))); reflexivity.
Qed.

Lemma GetApplicants_fallback (c : Ctx) (w : World) :
  redis_down w = true ->
  GetApplicants c w =
    let key := cacheKey (pageInt c) (limitInt c) in
    let find := DBFind (offsetOf (pageInt c) (limitInt c)) (limitInt c) in
    ((if db_down w then fetch_failed
      else {| status := 200;
              payload := PageJSON (page_rows c w) (pageInt c) (limitInt c) |}),
     {| table := table w; serial := serial w; cache := cache w;
        now := now w; db_faults := tl (db_faults w);
        redis_faults := tl (redis_faults w);
        calls := (calls w ++ [RedisGet key]) ++ [find] |}).
Proof.
  unfold redis_down, db_down, GetApplicants, page_rows, pageInt, limitInt.
  intros Hdown. unfold_world. rewrite Hdown. simpl.
  destruct (hd false (db_faults w)); reflexivity.
Qed.

(** In range, the offset is the product itself. *)
Lemma offsetOf_exact (page limit : Z) :
  strconv.minInt64 <= page - 1 <= strconv.maxInt64 ->
  strconv.minInt64 <= (page - 1) * limit <= strconv.maxInt64 ->
  offsetOf page limit = (page - 1) * limit.
Proof.
  unfold offsetOf, strconv.wrap, strconv.minInt64, strconv.maxInt64.
  intros Hp Ho.
  rewrite (Z.mod_small (page - 1 + 2 ^ 63)) by lia.
  replace (page - 1 + 2 ^ 63 - 2 ^ 63) with (page - 1) by lia.
  rewrite Z.mod_small by lia. lia.
Qed.

(** C2: cache-aside read.  With the cache reachable: if it holds a live
    entry under the derived key, the reply is that entry deserialized and
    the only call made is the cache read, so the store is not queried; if
    it holds none, the store is queried with offset [(page-1)*limit] and
    that limit, the serialized rows are written under the key with a
    time-to-live of 3 minutes (180 seconds), and those rows are returned.
    The offset is the product as Go computes it on [int], which is the
    product itself whenever that is in range. *)
Theorem cache_aside_read (c : Ctx) (w : World) :
  redis_down w = false ->
  let page := pageInt c in
  let limit := limitInt c in
  let key := cacheKey page limit in
  let r := fst (GetApplicants c w) in
  let w' := snd (GetApplicants c w) in
  match cached w key with
  | Some v =>
      r = {| status := 200;
             payload := PageJSON (json_Unmarshal v) page limit |}
      /\ added w w' [RedisGet key]
      /\ table w' = table w /\ cache w' = cache w
  | None =>
      db_down w = false ->
      let offset := strconv.wrap (strconv.wrap (page - 1) * limit) in
      let rows := gorm.window offset limit
                    (List.filter gorm.live (scan (table w))) in
      added w w'
        [RedisGet key; DBFind offset limit;
         RedisSet key (json_Marshal rows) (180 * time.Second)]
      /\ (strconv.minInt64 <= page - 1 <= strconv.maxInt64 ->
          strconv.minInt64 <= (page - 1) * limit <= strconv.maxInt64 ->
          offset = (page - 1) * limit)
      /\ (hd false (tl (redis_faults w)) = false ->
          cache w' = <[key := (json_Marshal rows, now w + 180 * time.Second)]>
                       (cache w))
      /\ r = {| status := 200; payload := PageJSON rows page limit |}
  end.
Proof.
  intros Hup page limit key r w'. subst r w'.
  destruct (cached w key) as [v |] eqn:Hc.
  - rewrite (GetApplicants_hit c w v Hup Hc). simpl.
    unfold added. simpl. auto.
  - intros Hdb offset rows.
    rewrite (GetApplicants_miss c w Hup Hc). cbv zeta. rewrite Hdb.
    unfold added. simpl. rewrite <- !app_assoc. simpl.
    split; [reflexivity |].
    split; [exact (offsetOf_exact page limit) |].
    split; [| reflexivity].
    intros ->. reflexivity.
Qed.

(** C5: with the cache unreachable (the read fails with an error that is
    not a miss) the request is served from the store with the offset and
    limit of the miss path, no cache write is attempted, and the reply is
    the store's: a success whenever the store query succeeds. *)
Theorem cache_unreachable_fallback (c : Ctx) (w : World) :
  redis_down w = true ->
  let key := cacheKey (pageInt c) (limitInt c) in
  let r := fst (GetApplicants c w) in
  let w' := snd (GetApplicants c w) in
  added w w'
    [RedisGet key; DBFind (offsetOf (pageInt c) (limitInt c)) (limitInt c)]
  /\ cache w' = cache w
  /\ r = (if db_down w then fetch_failed
          else {| status := 200;
                  payload := PageJSON (page_rows c w) (pageInt c)
                               (limitInt c) |}).
Proof.
  intros Hdown key r w'. subst r w'.
  rewrite (GetApplicants_fallback c w Hdown). cbv zeta. simpl.
  unfold added. simpl. rewrite <- app_assoc. auto.
Qed.

(** *** Pagination values *)









End listing.


(** ** Store lookups *)
Section store_facts.
Context `{Runtime}.

Lemma least_In (l : list Applicant) (a : Applicant) :
  gorm.least l = Some a -> In a l.
Proof.
  revert a. induction l as [| r l IH]; intros a; simpl; [discriminate |].
  destruct (gorm.least l) as [m |].
  - destruct (ID m <? ID r); intros [= <-]; auto.
  - intros [= <-]. auto.
Qed.


(** A lookup answers with a live row of the table that meets the
    condition, and answers whenever there is one. *)
Lemma lookup_found cond (t : list Applicant) (a : Applicant) :
  gorm.lookup cond t = inr a ->
  In a t /\ gorm.live a = true /\ cond a = true.
Proof.
  unfold gorm.lookup.
  destruct (gorm.least _) as [m |] eqn:L; [| discriminate].
  intros [= <-]. apply least_In, filter_In in L as [I C].
  apply andb_prop in C. tauto.
Qed.


Lemma lookup_absent cond (t : list Applicant) :
  (forall r, In r t -> gorm.live r && cond r = false) ->
  gorm.lookup cond t = inl gorm.ErrRecordNotFound.
Proof.
  intros N. unfold gorm.lookup.
  destruct (gorm.least _) as [m |] eqn:E; [| reflexivity].
  apply least_In, filter_In in E as [I C]. rewrite (N m I) in C.
  discriminate.
Qed.


(** Under a decimal number, the lookup by inline condition is the lookup
    by primary key. *)
Lemma inline_names (c : Ctx) (id : Z) (t : list Applicant) :
  names c id -> gorm.inline (id_param c) t = gorm.lookup (gorm.by_id id) t.
Proof. unfold names, gorm.inline. now intros ->. Qed.

Lemma found_names (c : Ctx) (id : Z) (w : World) (a : Applicant) :
  names c id -> found c w = inr a ->
  In a (table w) /\ gorm.live a = true /\ ID a = id.
Proof.
  unfold found. intros N. destruct (db_down w); [discriminate |].
  rewrite (inline_names c id _ N). intros F.
  apply lookup_found in F as [I [L B]]. apply Z.eqb_eq in B. auto.
Qed.

End store_facts.

(** ** Get, Delete *)
Section reading_and_deleting.
Context `{Runtime}.
Import controllers.

Lemma First_by_id (c : Ctx) (w : World) :
  gorm.First (DBFirstByID (id_param c)) (gorm.inline (id_param c)) w =
    (found c w,
     {| table := table w; serial := serial w; cache := cache w;
        now := now w; db_faults := tl (db_faults w);
        redis_faults := redis_faults w;
        calls := calls w ++ [DBFirstByID (id_param c)] |}).
Proof.
  unfold found, db_down. unfold_world.
  destruct (hd false (db_faults w)); reflexivity.
Qed.

Lemma GetApplicant_reply (c : Ctx) (w : World) :
  fst (GetApplicant c w) =
    match found c w with
    | inl _ => not_found
    | inr a => {| status := 200; payload := ApplicantJSON a |}
    end.
Proof.
  unfold GetApplicant, Params_id, bind. rewrite First_by_id.
  destruct (found c w); reflexivity.
Qed.

Lemma DeleteApplicant_ok (c : Ctx) (w : World) :
  status (fst (DeleteApplicant c w)) = 200 ->
  exists a, found c w = inr a
            /\ table (snd (DeleteApplicant c w))
               = soft_deleted (now w) a (table w).
Proof.
  unfold DeleteApplicant, Params_id, bind. rewrite First_by_id.
  destruct (found c w) as [e | a]; [discriminate |].
  unfold gorm.Delete. destruct (ID a =? 0); [discriminate |].
  unfold_world. simpl.
  destruct (hd false (tl (db_faults w))); simpl; [discriminate |].
  intros _. exists a. split; [reflexivity |].
  destruct (hd false (redis_faults w)); reflexivity.
Qed.

Lemma soft_deleted_gone (now : Z) (a : Applicant) (t : list Applicant) :
  gorm.lookup (gorm.by_id (ID a)) (soft_deleted now a t)
  = inl gorm.ErrRecordNotFound.
Proof.
  apply lookup_absent. intros r' I.
  apply in_map_iff in I as [r [<- I]].
  unfold gorm.target, gorm.by_id.
  destruct (ID r =? ID a) eqn:E; simpl.
  - destruct (gorm.live r) eqn:L; simpl; [reflexivity |].
    rewrite L, E. reflexivity.
  - rewrite E. apply andb_false_r.
Qed.

(** C8: after a successful Delete of an applicant id, Get of that id
    answers NotFound (404), whatever else happened to the cache, the clock
    and the reachability of the backends in between, as long as the table
    is as the Delete left it.  The Delete found a live row with that id, and
    the table keeps every row: the row is still there, now carrying its
    deletion time (the time of the Delete as the column stores it), which is
    what hides it from the lookup. *)
Theorem delete_then_get (c : Ctx) (id : Z) (w : World) :
  let w' := snd (DeleteApplicant c w) in
  names c id ->
  status (fst (DeleteApplicant c w)) = 200 ->
  (forall w2, table w2 = table w' ->
              fst (GetApplicant c w2) = not_found)
  /\ exists row,
       In row (table w) /\ ID row = id /\ DeletedAt row = None
       /\ In (with_DeletedAt (Some (stored_time (now w))) row) (table w')
       /\ length (table w') = length (table w).
Proof.
  intros w' N Ok. subst w'.
  destruct (DeleteApplicant_ok c w Ok) as [a [F T]].
  destruct (found_names c id w a N F) as [I [L B]].
  split.
  - intros w2 E. rewrite GetApplicant_reply. unfold found.
    destruct (db_down w2); [reflexivity |].
    rewrite (inline_names c id _ N), E, T, <- B, soft_deleted_gone.
    reflexivity.
  - exists a. repeat split; auto.
    + unfold gorm.live in L. destruct (DeletedAt a); [discriminate | auto].
    + rewrite T. unfold soft_deleted. apply in_map_iff. exists a.
      unfold gorm.target. rewrite Z.eqb_refl, L. auto.
    + rewrite T. unfold soft_deleted. apply length_map.
Qed.

End reading_and_deleting.

(** ** Create *)
Section creating.
Context `{Runtime}.
Import controllers utils.

Lemma candidate_Email (a : Applicant) :
  Email (candidate a) = normalized (Email a).
Proof.
  unfold candidate, default_status.
  destruct (String.eqb (Status (sanitize a)) ""); reflexivity.
Qed.


Lemma CreateApplicant_rejected (c : Ctx) (w : World) (a : Applicant) :
  body c = Some a -> accepted a = false ->
  exists msg,
    CreateApplicant c w = ({| status := 400; payload := ErrorJSON msg |}, w).
Proof.
  unfold accepted, checks, CreateApplicant, BodyParser. intros -> A.
  fold (sanitize a).
  destruct (String.eqb (Name (sanitize a)) "" || _ || _); [eauto |].
  destruct (ValidateEmail _); [| eauto].
  destruct (negb (String.eqb (Phone (sanitize a)) "") && _); [eauto |].
  destruct (negb (String.eqb (Status (sanitize a)) "") && _); [eauto |].
  discriminate.
Qed.

Lemma CreateApplicant_accepted (c : Ctx) (w : World) (a : Applicant) :
  body c = Some a -> accepted a = true ->
  CreateApplicant c w = store_new (candidate a) w.
Proof.
  unfold accepted, checks, CreateApplicant, BodyParser. intros -> A.
  fold (sanitize a).
  destruct (String.eqb (Name (sanitize a)) "" || _ || _); [discriminate |].
  destruct (ValidateEmail _); [| discriminate].
  destruct (negb (String.eqb (Phone (sanitize a)) "") && _); [discriminate |].
  destruct (negb (String.eqb (Status (sanitize a)) "") && _);
    [discriminate |].
  reflexivity.
Qed.

Lemma CreateApplicant_no_body (c : Ctx) (w : World) :
  body c = None ->
  CreateApplicant c w =
    ({| status := 400; payload := ErrorJSON "Invalid request body" |}, w).
Proof. unfold CreateApplicant, BodyParser. now intros ->. Qed.

Lemma store_new_conflict (a b : Applicant) (w : World) :
  existing a w = inr b ->
  store_new a w =
    ({| status := 409; payload := ErrorJSON "Email already exists" |},
     after_lookup a w).
Proof.
  unfold existing, db_down, store_new, after_lookup. unfold_world.
  destruct (hd false (db_faults w)); simpl; [discriminate |].
  now intros ->.
Qed.

Lemma store_new_insert (a : Applicant) (e : gorm.Error) (w : World) :
  existing a w = inl e ->
  let r := fst (store_new a w) in
  let w' := snd (store_new a w) in
  if inserts a w then
    r = {| status := 201; payload := ApplicantJSON (new_row a w) |}
    /\ table w' = table w ++ [gorm.kept (new_row a w)]
    /\ cache w' = (if redis_down w then cache w
                   else foldr delete (cache w) commonKeys)
    /\ added w w' [DBFirstByEmail (Email a); DBCreate a; RedisDel commonKeys]
  else
    r = {| status := 500; payload := ErrorJSON "Failed to create applicant" |}
    /\ table w' = table w /\ cache w' = cache w
    /\ added w w' [DBFirstByEmail (Email a); DBCreate a].
Proof.
  unfold existing, db_down, redis_down, store_new, inserts, new_row, new_id,
    added.
  intros E. unfold_world.
  destruct (hd false (db_faults w)); simpl in *.
  - destruct (hd false (tl (db_faults w))); simpl.
    + rewrite <- app_assoc. auto.
    + destruct (ID a =? 0); simpl;
        destruct (gorm.admissible _ _); simpl;
        try destruct (hd false (redis_faults w)); simpl;
        rewrite <- ?app_assoc; auto.
  - rewrite E. simpl.
    destruct (hd false (tl (db_faults w))); simpl.
    + rewrite <- app_assoc. auto.
    + destruct (ID a =? 0); simpl;
        destruct (gorm.admissible _ _); simpl;
        try destruct (hd false (redis_faults w)); simpl;
        rewrite <- ?app_assoc; auto.
Qed.

(** A Create that answers 201 went all the way: accepted body, no live
    row with the address, insert accepted. *)
Lemma CreateApplicant_created (c : Ctx) (w : World) :
  status (fst (CreateApplicant c w)) = 201 ->
  exists a,
    body c = Some a /\ accepted a = true
    /\ CreateApplicant c w = store_new (candidate a) w
    /\ (exists e, existing (candidate a) w = inl e)
    /\ inserts (candidate a) w = true.
Proof.
  intros S. destruct (body c) as [a |] eqn:B.
  - destruct (accepted a) eqn:A.
    + pose proof (CreateApplicant_accepted c w a B A) as E.
      exists a. repeat split; auto.
      * rewrite E in S.
        destruct (existing (candidate a) w) as [e | b] eqn:X; [eauto |].
        rewrite (store_new_conflict _ _ _ X) in S. discriminate.
      * rewrite E in S.
        destruct (existing (candidate a) w) as [e | b] eqn:X.
        -- pose proof (store_new_insert _ _ _ X) as I. cbv zeta in I.
           destruct (inserts (candidate a) w); [reflexivity |].
           destruct I as [R _]. rewrite R in S. discriminate.
        -- rewrite (store_new_conflict _ _ _ X) in S. discriminate.
    + destruct (CreateApplicant_rejected c w a B A) as [msg E].
      rewrite E in S. discriminate.
  - rewrite (CreateApplicant_no_body c w B) in S. discriminate.
Qed.







End creating.

(** ** Update, Delete: what a run does *)
Section updating.
Context `{Runtime}.
Import controllers.

Lemma UpdateApplicant_run (c : Ctx) (w : World) :
  let r := fst (UpdateApplicant c w) in
  let w' := snd (UpdateApplicant c w) in
  match found c w with
  | inl _ =>
      r = not_found /\ table w' = table w /\ cache w' = cache w
      /\ added w w' [DBFirstByID (id_param c)]
  | inr a =>
      match body c with
      | None =>
          r = {| status := 400; payload := ErrorJSON "Invalid request body" |}
          /\ table w' = table w /\ cache w' = cache w
          /\ added w w' [DBFirstByID (id_param c)]
      | Some u =>
          if updates a u w then
            r = {| status := 200;
                   payload := ApplicantJSON (gorm.merge (now w) u a) |}
            /\ table w' = updated (now w) a u (table w)
            /\ cache w' = cleared w
            /\ added w w' [DBFirstByID (id_param c); DBUpdates (ID a) u;
                           RedisDel commonKeys]
          else
            r = {| status := 500;
                   payload := ErrorJSON "Failed to update applicant" |}
            /\ table w' = table w /\ cache w' = cache w
            /\ added w w' (DBFirstByID (id_param c)
                           :: attempt a (DBUpdates (ID a) u))
      end
  end.
Proof.
  unfold UpdateApplicant, Params_id, BodyParser.
  rewrite bind_run, First_by_id. cbn [fst snd].
  destruct (found c w) as [e | a]; [unfold added; simpl; auto |].
  destruct (body c) as [u |]; [| unfold added; simpl; auto].
  unfold updates, updated, cleared, redis_down, added, attempt, gorm.Updates.
  destruct (ID a =? 0); [simpl; auto |].
  unfold_world. simpl.
  destruct (hd false (tl (db_faults w))); simpl.
  { rewrite <- app_assoc. auto. }
  destruct (forallb _ (table w)); simpl.
  - destruct (hd false (redis_faults w)); simpl; rewrite <- !app_assoc;
      auto.
  - rewrite <- app_assoc. auto.
Qed.

Lemma DeleteApplicant_run (c : Ctx) (w : World) :
  let r := fst (DeleteApplicant c w) in
  let w' := snd (DeleteApplicant c w) in
  match found c w with
  | inl _ =>
      r = not_found /\ table w' = table w /\ cache w' = cache w
      /\ added w w' [DBFirstByID (id_param c)]
  | inr a =>
      if deletes a w then
        r = {| status := 200;
               payload := MessageJSON "Applicant deleted successfully" |}
        /\ table w' = soft_deleted (now w) a (table w)
        /\ cache w' = cleared w
        /\ added w w' [DBFirstByID (id_param c); DBDelete (ID a);
                       RedisDel commonKeys]
      else
        r = {| status := 500;
               payload := ErrorJSON "Failed to delete applicant" |}
        /\ table w' = table w /\ cache w' = cache w
        /\ added w w' (DBFirstByID (id_param c)
                       :: attempt a (DBDelete (ID a)))
  end.
Proof.
  unfold DeleteApplicant, Params_id.
  rewrite bind_run, First_by_id. cbn [fst snd].
  destruct (found c w) as [e | a]; [unfold added; simpl; auto |].
  unfold deletes, soft_deleted, cleared, redis_down, added, attempt,
    gorm.Delete.
  destruct (ID a =? 0); [simpl; auto |].
  unfold_world. simpl.
  destruct (hd false (tl (db_faults w))); simpl.
  { rewrite <- app_assoc. auto. }
  destruct (hd false (redis_faults w)); simpl; rewrite <- !app_assoc; auto.
Qed.

(** *** The frame of an update *)

Lemma pick_empty (old : string) : gorm.pick "" old = old.
Proof. reflexivity. Qed.

Lemma pick_not_blank (new old : string) :
  old <> "" -> gorm.pick new old <> "".
Proof.
  unfold gorm.pick. destruct (String.eqb_spec new ""); auto.
Qed.

Lemma frame_refl (u r : Applicant) : frame u r r.
Proof. unfold frame, text_fields. repeat constructor; auto. Qed.

Lemma frame_merge (now : Z) (u r : Applicant) :
  frame u r (gorm.merge now u r).
Proof.
  unfold frame, text_fields.
  split; [| split; [| split]].
  - repeat constructor; simpl;
      try (intros ->; apply pick_empty); apply pick_not_blank.
  - simpl. now intros ->.
  - simpl. now intros ->.
  - simpl. now intros ->.
Qed.

Lemma frame_written (now : Z) (u r : Applicant) :
  frame u r (gorm.written now u r).
Proof.
  unfold frame, text_fields.
  split; [| split; [| split]].
  - repeat constructor; simpl;
      try (intros ->; apply pick_empty); apply pick_not_blank.
  - simpl. now intros ->.
  - simpl. now intros ->.
  - simpl. now intros ->.
Qed.

Lemma Forall2_map_self {A} (P : A -> A -> Prop) (f : A -> A) (l : list A) :
  (forall x, P x (f x)) -> Forall2 P l (map f l).
Proof. intros Pf. induction l; simpl; constructor; auto. Qed.

(** C10, as the code has it: an Update leaves every text field (name,
    email, position, status, phone, resume, notes) that its body supplies as
    the empty string, or does not mention, as it was in the stored record,
    so it cannot blank a field that held text; likewise the id, the creation
    time and the deletion time when the body leaves them zero.  This holds
    of every row of the table, and whether the update goes through or not.
    When it answers 200 the record found under the id is answered as
    [gorm.merge] rewrites it, and its row, a live row of the table, is in
    the table as [gorm.written] rewrites it: the supplied values where they
    are not zero, the old values elsewhere.  (What is found under a decimal
    id is a live row of the table.)  The modification time is the
    exception: it is as before or the time of the update (as the column
    stores it), whatever the body says. *)
Theorem update_keeps_unsupplied (c : Ctx) (u : Applicant) (w : World) :
  let r := fst (UpdateApplicant c w) in
  let w' := snd (UpdateApplicant c w) in
  body c = Some u ->
  Forall2 (frame u) (table w) (table w')
  /\ Forall2 (fun r r' => UpdatedAt r' = UpdatedAt r
                          \/ UpdatedAt r' = stored_time (now w))
       (table w) (table w')
  /\ (status r = 200 ->
      exists a, found c w = inr a
                /\ payload r = ApplicantJSON (gorm.merge (now w) u a)
                /\ frame u a (gorm.merge (now w) u a)
                /\ (In a (table w) -> DeletedAt a = None ->
                    In (gorm.written (now w) u a) (table w'))
                /\ (forall id, names c id ->
                    In a (table w) /\ DeletedAt a = None)).
Proof.
  intros r w' B. subst r w'.
  assert (Same : forall t : list Applicant,
            Forall2 (frame u) t t
            /\ Forall2 (fun r r' => UpdatedAt r' = UpdatedAt r
                                    \/ UpdatedAt r' = stored_time (now w))
                 t t).
  { intros t. rewrite <- (map_id t) at 2 4.
    split; apply Forall2_map_self; [apply frame_refl | auto]. }
  pose proof (UpdateApplicant_run c w) as R. cbv zeta in R.
  destruct (found c w) as [e | a] eqn:F.
  - destruct R as [-> [-> _]].
    destruct (Same (table w)). repeat split; auto; discriminate.
  - rewrite B in R. destruct (updates a u w).
    + destruct R as [-> [-> _]]. split; [| split].
      * apply Forall2_map_self. intros x.
        destruct (gorm.target a x); [apply frame_written | apply frame_refl].
      * apply Forall2_map_self. intros x.
        destruct (gorm.target a x); simpl; auto.
      * intros _. exists a.
        split; [reflexivity |]. split; [reflexivity |].
        split; [apply frame_merge |]. split.
        -- intros I L.
           unfold updated. apply in_map_iff. exists a. split; [| exact I].
           unfold gorm.target, gorm.live. now rewrite Z.eqb_refl, L.
        -- intros id Nm.
           destruct (found_names c id w a Nm F) as [I [L _]].
           split; [exact I |]. unfold gorm.live in L.
           destruct (DeletedAt a); [discriminate | reflexivity].
    + destruct R as [-> [-> _]].
      destruct (Same (table w)). repeat split; auto; discriminate.
Qed.

End updating.

(** ** Invalidation and failures across the handlers *)
Section mutations.
Context `{Runtime}.
Import controllers.

(** C6: a Create, Update or Delete that succeeds issues one cache command,
    the deletion of the two keys [applicants_page_1_limit_10] and
    [applicants_page_1_limit_20]; the cache it leaves is the cache it found
    without these two keys, every other key as before.  (A deletion that
    does not reach the cache is swallowed and leaves it as it was.) *)
Theorem mutation_clears_common_keys (m : Mutation) (c : Ctx) (w : World) :
  let r := fst (handler m c w) in
  let w' := snd (handler m c w) in
  status r = success m ->
  (exists cs,
      added w w' cs
      /\ cache_calls cs = [RedisDel ["applicants_page_1_limit_10";
                                     "applicants_page_1_limit_20"]])
  /\ cache w' =
     (if redis_down w then cache w
      else delete "applicants_page_1_limit_10"
             (delete "applicants_page_1_limit_20" (cache w))).
Proof.
  intros r w' S. subst r w'. destruct m; simpl in *.
  - destruct (CreateApplicant_created c w S) as [a [B [A [E [[e X] I]]]]].
    pose proof (store_new_insert _ _ _ X) as Ins. cbv zeta in Ins.
    rewrite I, <- E in Ins. destruct Ins as [_ [_ [C Ad]]].
    split; [eexists; split; [exact Ad | reflexivity] | exact C].
  - pose proof (UpdateApplicant_run c w) as R. cbv zeta in R.
    destruct (found c w) as [e | a].
    { destruct R as [R _]. rewrite R in S. discriminate. }
    destruct (body c) as [u |].
    2:{ destruct R as [R _]. rewrite R in S. discriminate. }
    destruct (updates a u w).
    2:{ destruct R as [R _]. rewrite R in S. discriminate. }
    destruct R as [_ [_ [C Ad]]].
    split; [eexists; split; [exact Ad | reflexivity] | exact C].
  - pose proof (DeleteApplicant_run c w) as R. cbv zeta in R.
    destruct (found c w) as [e | a].
    { destruct R as [R _]. rewrite R in S. discriminate. }
    destruct (deletes a w).
    2:{ destruct R as [R _]. rewrite R in S. discriminate. }
    destruct R as [_ [_ [C Ad]]].
    split; [eexists; split; [exact Ad | reflexivity] | exact C].
Qed.

(** C4, as the code has it.  A store error in the statement that does the
    work answers Internal (500): the page query of List, the insert of
    Create, the update of Update, the soft delete of Delete.  A store error
    in the by-id lookup that opens Get, Update and Delete answers NotFound
    (404) like an absent row, and an error of the uniqueness lookup of
    Create is passed over: the insert is attempted and its outcome, 201 or
    500, is the reply. *)
Theorem store_failure_replies (c : Ctx) (w : World) :
  (db_down w = true ->
     fst (GetApplicant c w) = not_found
     /\ fst (UpdateApplicant c w) = not_found
     /\ fst (DeleteApplicant c w) = not_found)
  /\ (forall a u, found c w = inr a -> body c = Some u ->
        updates a u w = false ->
        status (fst (UpdateApplicant c w)) = 500)
  /\ (forall a, found c w = inr a -> deletes a w = false ->
        status (fst (DeleteApplicant c w)) = 500)
  /\ (db_down w = true ->
      redis_down w = true
      \/ cached w (cacheKey (pageInt c) (limitInt c)) = None ->
      status (fst (GetApplicants c w)) = 500)
  /\ (forall a, body c = Some a -> accepted a = true ->
        db_down w = true ->
        status (fst (CreateApplicant c w))
        = if inserts (candidate a) w then 201 else 500)
  /\ (forall a e, body c = Some a -> accepted a = true ->
        existing (candidate a) w = inl e -> inserts (candidate a) w = false ->
        status (fst (CreateApplicant c w)) = 500).
Proof.
  assert (Down : db_down w = true -> found c w = inl gorm.ErrUnavailable).
  { unfold found. now intros ->. }
  assert (Ins : forall a e, body c = Some a -> accepted a = true ->
                  existing (candidate a) w = inl e ->
                  status (fst (CreateApplicant c w))
                  = if inserts (candidate a) w then 201 else 500).
  { intros a e B A X.
    rewrite (CreateApplicant_accepted c w a B A).
    pose proof (store_new_insert _ _ _ X) as Ins. cbv zeta in Ins.
    destruct (inserts (candidate a) w); destruct Ins as [-> _];
      reflexivity. }
  split; [| split; [| split; [| split; [| split]]]].
  - intros D. apply Down in D. repeat split.
    + rewrite GetApplicant_reply, D. reflexivity.
    + pose proof (UpdateApplicant_run c w) as R. cbv zeta in R.
      rewrite D in R. tauto.
    + pose proof (DeleteApplicant_run c w) as R. cbv zeta in R.
      rewrite D in R. tauto.
  - intros a u F B U.
    pose proof (UpdateApplicant_run c w) as R. cbv zeta in R.
    rewrite F, B, U in R. destruct R as [-> _]. reflexivity.
  - intros a F D.
    pose proof (DeleteApplicant_run c w) as R. cbv zeta in R.
    rewrite F, D in R. destruct R as [-> _]. reflexivity.
  - intros D [R | C].
    + rewrite (GetApplicants_fallback c w R). cbv zeta. simpl.
      now rewrite D.
    + destruct (redis_down w) eqn:R.
      * rewrite (GetApplicants_fallback c w R). cbv zeta. simpl.
        now rewrite D.
      * rewrite (GetApplicants_miss c w R C). cbv zeta. now rewrite D.
  - intros a B A D. apply (Ins a gorm.ErrUnavailable B A).
    unfold existing. now rewrite D.
  - intros a e B A X N. rewrite (Ins a e B A X), N. reflexivity.
Qed.

End mutations.

(** ** The constraints of the table are kept

    The primary key and the unique constraint on [email] hold of the table
    in every state the handlers reach from a state in which they hold. *)
Section invariants.
Context `{Runtime}.
Import controllers.

Lemma pk_free_spec (t : list Applicant) (id : Z) :
  gorm.pk_free t id = true -> ~ In id (map ID t).
Proof.
  unfold gorm.pk_free. rewrite forallb_forall. intros F I.
  apply in_map_iff in I as [r [E I]]. specialize (F r I).
  rewrite E, Z.eqb_refl in F. discriminate.
Qed.

Lemma email_free_spec (t : list Applicant) (email : string) :
  gorm.email_free t email = true -> ~ In email (map Email t).
Proof.
  unfold gorm.email_free. rewrite forallb_forall. intros F I.
  apply in_map_iff in I as [r [E I]]. specialize (F r I).
  rewrite E, String.eqb_refl in F. discriminate.
Qed.

Lemma NoDup_insert {B} (b : B) (l1 l2 : list B) :
  List.NoDup (l1 ++ l2) -> ~ In b (l1 ++ l2) -> List.NoDup (l1 ++ b :: l2).
Proof. intros U N. apply (NoDup_Add (Add_app b l1 l2)). auto. Qed.

Lemma admissible_insert (l1 l2 : list Applicant) (row : Applicant) :
  consistent (l1 ++ l2) -> gorm.admissible (l1 ++ l2) row = true ->
  consistent (l1 ++ row :: l2).
Proof.
  unfold consistent, gorm.admissible. intros [Ui Ue] A.
  apply andb_prop in A as [A Fe]. apply andb_prop in A as [_ Fi].
  apply pk_free_spec in Fi. apply email_free_spec in Fe.
  rewrite !map_app in *. simpl. split; apply NoDup_insert; assumption.
Qed.

Lemma soft_deleted_consistent (now : Z) (a : Applicant) (t : list Applicant) :
  consistent t -> consistent (soft_deleted now a t).
Proof.
  unfold consistent, soft_deleted. rewrite !map_map.
  intros [Ui Ue]. split.
  - erewrite map_ext; [exact Ui |].
    intros r. destruct (gorm.target a r); reflexivity.
  - erewrite map_ext; [exact Ue |].
    intros r. destruct (gorm.target a r); reflexivity.
Qed.

Lemma updated_consistent (now : Z) (a u : Applicant) (t : list Applicant) :
  consistent t ->
  forallb (fun r => negb (gorm.target a r)
                    || gorm.admissible
                         (List.filter (fun r => negb (gorm.target a r)) t)
                         (gorm.written now u r)) t = true ->
  consistent (updated now a u t).
Proof.
  intros C F. unfold updated.
  destruct (existsb (gorm.target a) t) eqn:X.
  - apply existsb_exists in X as [r0 [I T0]].
    apply in_split in I as [l1 [l2 ->]].
    assert (Others : forall r, In r (l1 ++ l2) -> gorm.target a r = false).
    { intros r Ir. destruct (gorm.target a r) eqn:T; [| reflexivity].
      exfalso. destruct C as [Ui _]. rewrite map_app in Ui. simpl in Ui.
      apply NoDup_remove_2 in Ui. apply Ui. rewrite <- map_app.
      apply in_map_iff. exists r. split; [| exact Ir].
      unfold gorm.target in *.
      apply andb_prop in T as [T _]. apply andb_prop in T0 as [T0 _].
      apply Z.eqb_eq in T, T0. congruence. }
    assert (Same : forall l, (forall r, In r l -> gorm.target a r = false) ->
              map (fun r => if gorm.target a r then gorm.written now u r else r) l
              = l
              /\ List.filter (fun r => negb (gorm.target a r)) l = l).
    { induction l as [| x l IH]; intros N; simpl; [auto |].
      rewrite (N x) by (left; reflexivity). simpl.
      destruct IH as [-> ->]; [intros r Ir; apply N; right; exact Ir | auto]. }
    destruct (Same l1) as [M1 F1];
      [intros r Ir; apply Others, in_or_app; auto |].
    destruct (Same l2) as [M2 F2];
      [intros r Ir; apply Others, in_or_app; auto |].
    rewrite forallb_forall in F.
    assert (I0 : In r0 (l1 ++ r0 :: l2))
      by (apply in_or_app; right; left; reflexivity).
    specialize (F r0 I0).
    rewrite T0 in F. simpl in F.
    rewrite List.filter_app in F. simpl in F. rewrite T0 in F. simpl in F.
    rewrite F1, F2 in F.
    rewrite map_app. simpl. rewrite T0, M1, M2.
    apply admissible_insert; [| exact F].
    destruct C as [Ui Ue]. unfold consistent. rewrite !map_app in *.
    simpl in *.
    split; [eapply NoDup_remove_1; exact Ui | eapply NoDup_remove_1; exact Ue].
  - rewrite (map_ext_in _ (fun r => r)), map_id; [exact C |].
    intros r Ir. destruct (gorm.target a r) eqn:T; [| reflexivity].
    assert (existsb (gorm.target a) t = true) as Y
        by (apply existsb_exists; eauto).
    congruence.
Qed.

(** X14: every handler keeps the constraints of the table: if ids and
    addresses are without repetition before a request, they are so after
    it. *)
Theorem table_stays_consistent (c : Ctx) (w : World) :
  consistent (table w) ->
  consistent (table (snd (CreateApplicant c w)))
  /\ consistent (table (snd (GetApplicants c w)))
  /\ consistent (table (snd (GetApplicant c w)))
  /\ consistent (table (snd (UpdateApplicant c w)))
  /\ consistent (table (snd (DeleteApplicant c w))).
Proof.
  intros C. split; [| split; [| split; [| split]]].
  - destruct (body c) as [a |] eqn:B.
    2:{ now rewrite (CreateApplicant_no_body c w B). }
    destruct (accepted a) eqn:A.
    2:{ destruct (CreateApplicant_rejected c w a B A) as [msg ->]. exact C. }
    rewrite (CreateApplicant_accepted c w a B A).
    destruct (existing (candidate a) w) as [e | b] eqn:X.
    + pose proof (store_new_insert _ _ _ X) as Ins. cbv zeta in Ins.
      destruct (inserts (candidate a) w) eqn:I.
      * destruct Ins as [_ [-> _]].
        apply admissible_insert; rewrite app_nil_r; [exact C |].
        unfold inserts in I. apply andb_prop in I as [_ I]. exact I.
      * destruct Ins as [_ [-> _]]. exact C.
    + rewrite (store_new_conflict _ _ _ X). exact C.
  - destruct (redis_down w) eqn:R.
    + rewrite (GetApplicants_fallback c w R). exact C.
    + destruct (cached w (cacheKey (pageInt c) (limitInt c))) as [v |] eqn:K.
      * rewrite (GetApplicants_hit c w v R K). exact C.
      * rewrite (GetApplicants_miss c w R K). cbv zeta.
        destruct (db_down w); exact C.
  - unfold GetApplicant, Params_id. rewrite bind_run, First_by_id.
    cbn [fst snd]. destruct (found c w); exact C.
  - pose proof (UpdateApplicant_run c w) as U. cbv zeta in U.
    destruct (found c w) as [e | a]; [destruct U as [_ [-> _]]; exact C |].
    destruct (body c) as [u |]; [| destruct U as [_ [-> _]]; exact C].
    destruct (updates a u w) eqn:Y; destruct U as [_ [-> _]]; [| exact C].
    apply updated_consistent; [exact C |].
    unfold updates in Y. now apply andb_prop in Y as [_ Y].
  - pose proof (DeleteApplicant_run c w) as D. cbv zeta in D.
    destruct (found c w) as [e | a]; [destruct D as [_ [-> _]]; exact C |].
    destruct (deletes a w); destruct D as [_ [-> _]]; [| exact C].
    apply soft_deleted_consistent, C.
Qed.

End invariants.

(** * Runs

    The service on the ASCII runtime: the deployment after John Doe applied,
    and each property above at a concrete request. *)
Section runs.
Import controllers.
#[local] Existing Instance demo.runtime.

Example john_applies :
  @CreateApplicant demo.runtime (demo.post demo.john) (demo.boot 1000)
  = ({| status := 201;
        payload := ApplicantJSON
                     (Build_Applicant 1 1000 1000 None "John Doe"
                        "john@example.com" "Software Engineer" "pending"
                        "+1234567890" "" "Experienced developer") |},
     with_john).
Proof. vm_compute. reflexivity. Qed.

(** Pagination arguments, as [strconv.Atoi] and as [actual] read them. *)
Example pagination_examples :
  map (fun s => fst (strconv.Atoi s))
    ["7"; "+7"; "-7"; "007"; "abc"; "7x"; "-"; "9223372036854775808";
     "-9223372036854775809"; "99999999999999999999x"]
  = [7; 7; -7; 7; 0; 0; 0; strconv.maxInt64; strconv.minInt64;
     strconv.maxInt64]
  /\ map (fun s => actual (Some s) 10)
       [""; "7"; "abc"; "99999999999999999999"; "-99999999999999999999"]
     = [10; 7; 0; strconv.maxInt64; strconv.minInt64].
Proof. split; vm_compute; reflexivity. Qed.

(** The validation helpers on the examples of the specification. *)
Example ValidateEmail_examples :
  utils.ValidateEmail "john@example.com" = true
  /\ utils.ValidateEmail "not-an-email" = false
  /\ utils.ValidateEmail "a@b.c" = false.
Proof. repeat split; vm_compute; reflexivity. Qed.

Example ValidatePhone_examples :
  utils.ValidatePhone "" = true
  /\ utils.ValidatePhone "+1234567890" = true
  /\ utils.ValidatePhone "abc" = false
  /\ utils.ValidatePhone "(555) 123-4567" = true
  /\ utils.ValidatePhone "1234567890123456" = false.
Proof. repeat split; vm_compute; reflexivity. Qed.

Example ValidateStatus_examples :
  utils.ValidateStatus "hired" = true /\ utils.ValidateStatus "ghosted" = false.
Proof. split; reflexivity. Qed.

(** A second List within the time-to-live is served from the cache: same
    data, one cache read, no store call. *)
Example second_list_hits :
  let c := demo.list_with [] in
  fst (@GetApplicants demo.runtime c john_listed)
  = fst (@GetApplicants demo.runtime c with_john)
  /\ calls (snd (@GetApplicants demo.runtime c john_listed))
     = calls john_listed ++ [RedisGet "applicants_page_1_limit_10"].
Proof. split; vm_compute; reflexivity. Qed.

(** C4, as stated, fails: John Doe is in the table, the store cannot be
    reached, and Get answers NotFound (404), not Internal (500). *)
Lemma lookup_failure_is_not_found :
  let w := demo.with_faults [true] [] with_john in
  let r := fst (GetApplicant (demo.by_id "1") w) in
  (exists a, In a (table w) /\ ID a = 1 /\ DeletedAt a = None)
  /\ fst (gorm.First (DBFirstByID "1") (gorm.inline "1") w)
     = inl gorm.ErrUnavailable
  /\ r = not_found /\ status r <> 500.
Proof.
  cbv zeta. split; [| split; [| split]].
  - eexists. split; [left; reflexivity | split; reflexivity].
  - reflexivity.
  - reflexivity.
  - vm_compute. discriminate.
Qed.

(** C1, as stated, fails: the first Create, whose body carries a deletion
    time, answers 201; the second, with the same address up to case,
    answers Internal (500) and not Conflict (409): the uniqueness lookup
    does not see the row, the unique constraint does. *)
Lemma second_create_internal :
  let c1 := demo.post departed_john in
  let c2 := demo.post demo.shouting_john in
  let w := demo.boot 1000 in
  let w1 := snd (CreateApplicant c1 w) in
  normalized (Email departed_john) = normalized (Email demo.shouting_john)
  /\ status (fst (CreateApplicant c1 w)) = 201
  /\ status (fst (CreateApplicant c2 w1)) = 500
  /\ status (fst (CreateApplicant c2 w1)) <> 409.
Proof.
  cbv zeta. split; [vm_compute; reflexivity |].
  split; [vm_compute; reflexivity |].
  assert (S : status (fst (CreateApplicant (demo.post demo.shouting_john)
                             (snd (CreateApplicant (demo.post departed_john)
                                     (demo.boot 1000))))) = 500)
    by (vm_compute; reflexivity).
  split; [exact S |]. rewrite S. discriminate.
Qed.


(** A first List of the second page, one applicant a page, misses, asks the
    store at offset 1 and fills the cache. *)
Lemma cache_aside_read_witness :
  let c := demo.list_with [("page", "2"); ("limit", "1")] in
  let key := cacheKey (pageInt c) (limitInt c) in
  let w' := snd (GetApplicants c with_two) in
  key = "applicants_page_2_limit_1"
  /\ redis_down with_two = false /\ db_down with_two = false
  /\ cached with_two key = None
  /\ (exists v, added with_two w'
                  [RedisGet key; DBFind 1 1; RedisSet key v 180000000000])
  /\ (exists rows, fst (GetApplicants c with_two)
                   = {| status := 200; payload := PageJSON rows 2 1 |}
                   /\ map Name rows = ["Jane Roe"]).
Proof.
  cbv zeta.
  pose proof (cache_aside_read
                (demo.list_with [("page", "2"); ("limit", "1")])
                with_two eq_refl) as T.
  cbv zeta in T.
  assert (C : cached with_two
                (cacheKey
                   (pageInt (demo.list_with [("page", "2"); ("limit", "1")]))
                   (limitInt (demo.list_with [("page", "2"); ("limit", "1")])))
              = None) by (vm_compute; reflexivity).
  rewrite C in T. destruct (T eq_refl) as [Ad [_ [_ R]]].
  split; [vm_compute; reflexivity |].
  split; [reflexivity |]. split; [reflexivity |]. split; [exact C |].
  split; [eexists; exact Ad |].
  eexists. split; [exact R |]. vm_compute. reflexivity.
Defined.

Lemma cache_unreachable_fallback_witness :
  let c := demo.list_with [] in
  let w := demo.with_faults [] [true] with_john in
  let r := fst (GetApplicants c w) in
  redis_down w = true /\ db_down w = false
  /\ added w (snd (GetApplicants c w))
       [RedisGet (cacheKey (pageInt c) (limitInt c));
        DBFind (offsetOf (pageInt c) (limitInt c)) (limitInt c)]
  /\ cache (snd (GetApplicants c w)) = cache w
  /\ status r = 200.
Proof.
  cbv zeta.
  destruct (cache_unreachable_fallback (demo.list_with [])
              (demo.with_faults [] [true] with_john) eq_refl)
    as [Ad [C R]].
  split; [reflexivity |]. split; [reflexivity |]. split; [exact Ad |].
  split; [exact C |]. rewrite R. reflexivity.
Defined.

Lemma mutation_clears_common_keys_witness :
  let w' := snd (handler Delete (demo.by_id "1") john_listed) in
  status (fst (handler Delete (demo.by_id "1") john_listed)) = 200
  /\ is_Some (cache john_listed !! "applicants_page_1_limit_10")
  /\ cache w' = (if redis_down john_listed then cache john_listed
                 else delete "applicants_page_1_limit_10"
                        (delete "applicants_page_1_limit_20"
                           (cache john_listed))).
Proof.
  cbv zeta.
  assert (S : status (fst (handler Delete (demo.by_id "1") john_listed))
              = 200)
    by (vm_compute; reflexivity).
  destruct (mutation_clears_common_keys Delete (demo.by_id "1")
              john_listed S) as [_ C].
  split; [exact S |]. split; [vm_compute; eauto | exact C].
Defined.

Lemma delete_then_get_witness :
  names (demo.by_id "1") 1
  /\ status (fst (DeleteApplicant (demo.by_id "1") with_john)) = 200
  /\ fst (GetApplicant (demo.by_id "1")
            (snd (DeleteApplicant (demo.by_id "1") with_john))) = not_found.
Proof.
  assert (N : names (demo.by_id "1") 1) by reflexivity.
  assert (S : status (fst (DeleteApplicant (demo.by_id "1") with_john)) = 200)
    by (vm_compute; reflexivity).
  destruct (delete_then_get (demo.by_id "1") 1 with_john N S) as [G _].
  split; [exact N |]. split; [exact S |]. apply G. reflexivity.
Defined.

(** C9, as stated, fails: John Doe's row holds his address in capitals and
    is soft-deleted; a Create with the same address in small letters, equal
    to it up to case, answers 201: to the store the two are different
    addresses. *)
Lemma other_case_is_created :
  let c := demo.post demo.john in
  let old := Build_Applicant 1 1000 6000 (Some 6000) "John Doe"
               "JOHN@EXAMPLE.COM" "Software Engineer" "pending"
               "+1234567890" "" "Experienced developer" in
  table capitals_deleted = [old]
  /\ DeletedAt old <> None
  /\ normalized (Email demo.john) = normalized (Email old)
  /\ status (fst (CreateApplicant c capitals_deleted)) = 201
  /\ status (fst (CreateApplicant c capitals_deleted)) <> 500.
Proof.
  cbv zeta. split; [reflexivity |]. split; [discriminate |].
  split; [vm_compute; reflexivity |].
  assert (S : status (fst (CreateApplicant (demo.post demo.john)
                             capitals_deleted)) = 201)
    by (vm_compute; reflexivity).
  split; [exact S |]. rewrite S. discriminate.
Qed.


(** C10, as stated, fails for one field: a body that mentions only the
    status and the notes leaves the modification time zero, and the update
    still moves it from 1000 to 6000. *)
Lemma update_refreshes_UpdatedAt :
  let c := demo.put "1" interviewed in
  let w := demo.later 5000 with_john in
  let w' := snd (UpdateApplicant c w) in
  status (fst (UpdateApplicant c w)) = 200
  /\ UpdatedAt interviewed = 0
  /\ map UpdatedAt (table w) = [1000]
  /\ map UpdatedAt (table w') = [6000]
  /\ ~ Forall2 (claimed_frame interviewed) (table w) (table w').
Proof.
  cbv zeta. split; [vm_compute; reflexivity |]. split; [reflexivity |].
  split; [reflexivity |]. split; [vm_compute; reflexivity |].
  intros F.
  assert (T : table (snd (UpdateApplicant (demo.put "1" interviewed)
                            (demo.later 5000 with_john)))
              = [Build_Applicant 1 1000 6000 None "John Doe"
                   "john@example.com" "Software Engineer" "interviewed"
                   "+1234567890" "" "Passed technical interview"])
    by (vm_compute; reflexivity).
  rewrite T in F. inversion F as [| r r' t t' [_ U] _]; subst.
  specialize (U eq_refl). discriminate U.
Qed.

Lemma update_keeps_unsupplied_witness :
  let c := demo.put "1" interviewed in
  let w := demo.later 5000 with_john in
  let w' := snd (UpdateApplicant c w) in
  status (fst (UpdateApplicant c w)) = 200
  /\ Forall2 (frame interviewed) (table w) (table w')
  /\ map Name (table w') = ["John Doe"]
  /\ map Status (table w') = ["interviewed"]
  /\ map UpdatedAt (table w') = [6000].
Proof.
  cbv zeta.
  destruct (update_keeps_unsupplied (demo.put "1" interviewed) interviewed
              (demo.later 5000 with_john) eq_refl) as [F _].
  split; [vm_compute; reflexivity |]. split; [exact F |].
  split; [vm_compute; reflexivity |].
  split; vm_compute; reflexivity.
Defined.

Lemma store_failure_replies_witness :
  let w := demo.with_faults [true] [] with_john in
  let w2 := demo.with_faults [false; true] [] with_john in
  db_down w = true
  /\ fst (DeleteApplicant (demo.by_id "1") w) = not_found
  /\ status (fst (DeleteApplicant (demo.by_id "1") w2)) = 500
  /\ status (fst (@GetApplicants demo.runtime (demo.list_with []) w)) = 500.
Proof.
  cbv zeta.
  destruct (@store_failure_replies demo.runtime (demo.by_id "1")
              (demo.with_faults [true] [] with_john))
    as [L _].
  destruct (@store_failure_replies demo.runtime (demo.by_id "1")
              (demo.with_faults [false; true] [] with_john))
    as [_ [_ [D _]]].
  destruct (@store_failure_replies demo.runtime (demo.list_with [])
              (demo.with_faults [true] [] with_john))
    as [_ [_ [_ [Q _]]]].
  split; [reflexivity |].
  split; [apply (L eq_refl) |].
  split; [eapply D; vm_compute; reflexivity |].
  apply Q; [reflexivity | right; vm_compute; reflexivity].
Defined.

End runs.

(** * More of the code *)

(** ** The validation patterns *)
Section patterns.
Import regexp.

Lemma append_cons (c : ascii) (s t : string) :
  String c s +:+ t = String c (s +:+ t).
Proof. reflexivity. Qed.

Lemma append_nil_l (s : string) : "" +:+ s = s.
Proof. reflexivity. Qed.

Lemma append_nil_r (s : string) : s +:+ "" = s.
Proof.
  induction s as [| c s IH]; [reflexivity |]. now rewrite append_cons, IH.
Qed.

Lemma append_assoc (a b c : string) : (a +:+ b) +:+ c = a +:+ (b +:+ c).
Proof.
  induction a as [| x a IH]; [reflexivity |]. now rewrite !append_cons, IH.
Qed.

Lemma length_append (a b : string) :
  String.length (a +:+ b) = (String.length a + String.length b)%nat.
Proof.
  induction a as [| x a IH]; [reflexivity |].
  rewrite append_cons. simpl. now rewrite IH.
Qed.

Lemma append_empty (a b : string) : a +:+ b = "" -> a = "" /\ b = "".
Proof. destruct a; [auto | rewrite append_cons; discriminate]. Qed.

Lemma Cat_inv r s x :
  lang (Cat r s) x <-> exists a b, x = a +:+ b /\ lang r a /\ lang s b.
Proof.
  split.
  - inversion 1; subst; eauto.
  - intros (a & b & -> & ? & ?). now constructor.
Qed.

Lemma Alt_inv r s x : lang (Alt r s) x <-> lang r x \/ lang s x.
Proof.
  split.
  - inversion 1; subst; auto.
  - intros [? | ?]; [apply lang_Alt_l | apply lang_Alt_r]; assumption.
Qed.

Lemma Class_inv p x : lang (Class p) x <-> exists c, x = String c "" /\ p c = true.
Proof.
  split.
  - inversion 1; subst; eauto.
  - intros (c & -> & ?). now constructor.
Qed.

Lemma Eps_inv x : lang Eps x <-> x = "".
Proof. split; [inversion 1; auto | intros ->; constructor]. Qed.

Lemma Void_inv x : ~ lang Void x.
Proof. inversion 1. Qed.

Lemma Star_cons r c x :
  lang (Star r) (String c x) ->
  exists a b, x = a +:+ b /\ lang r (String c a) /\ lang (Star r) b.
Proof.
  intros L. remember (Star r) as q eqn:Q. remember (String c x) as y eqn:Y.
  revert x Y. induction L; try discriminate; intros z Y.
  injection Q as ->.
  destruct x as [| d x].
  - rewrite append_nil_l in Y. subst y. now apply IHL2.
  - rewrite append_cons in Y. injection Y as -> <-. eauto.
Qed.

Lemma nullable_lang r : nullable r = true <-> lang r "".
Proof.
  induction r; simpl.
  - split; [discriminate | intros L; destruct (Void_inv _ L)].
  - split; [constructor | auto].
  - split; [discriminate |]. intros L. apply Class_inv in L as (c & E & _).
    discriminate.
  - rewrite andb_true_iff, IHr1, IHr2, Cat_inv. split.
    + intros [? ?]. exists "", "". auto.
    + intros (a & b & E & ? & ?). symmetry in E.
      apply append_empty in E as [-> ->]. auto.
  - rewrite orb_true_iff, IHr1, IHr2, Alt_inv. tauto.
  - split; [constructor | auto].
Qed.

Lemma cat_lang r s x : lang (cat r s) x <-> lang (Cat r s) x.
Proof.
  rewrite Cat_inv.
  destruct r; simpl;
    try (destruct s; simpl; rewrite ?Cat_inv; try tauto;
         split; [intros L; destruct (Void_inv _ L)
                |intros (a & b & _ & _ & L); destruct (Void_inv _ L)]).
  - split; [intros L; destruct (Void_inv _ L)
           |intros (a & b & _ & L & _); destruct (Void_inv _ L)].
  - destruct s; simpl.
    all: split;
      [ intros L; try (destruct (Void_inv _ L)); exists "", x; repeat split; auto; constructor
      | intros (a & b & -> & La & Lb); apply Eps_inv in La as ->; simpl; try exact Lb ].
    all: destruct (Void_inv _ Lb).
Qed.

Lemma alt_lang r s x : lang (alt r s) x <-> lang (Alt r s) x.
Proof.
  rewrite Alt_inv.
  destruct r; simpl;
    try (destruct s; simpl; rewrite ?Alt_inv; try tauto;
         split; [tauto | intros [L | L]; [exact L | destruct (Void_inv _ L)]]).
  split; [tauto | intros [L | L]; [destruct (Void_inv _ L) | exact L]].
Qed.

Lemma deriv_lang r c x : lang (deriv c r) x <-> lang r (String c x).
Proof.
  revert x. induction r as [| | p | r IHr s IHs | r IHr s IHs | r IHr];
    intros x; simpl.
  - split; intros L; destruct (Void_inv _ L).
  - split; intros L; [destruct (Void_inv _ L) |].
    apply Eps_inv in L. discriminate.
  - rewrite Class_inv. destruct (p c) eqn:P.
    + rewrite Eps_inv. split.
      * intros ->. eauto.
      * intros (d & [= -> ->] & _). reflexivity.
    + split; [intros L; destruct (Void_inv _ L) |].
      intros (d & [= -> ->] & Q). congruence.
  - assert (Step : lang (cat (deriv c r) s) x
                   <-> exists a b, x = a +:+ b /\ lang r (String c a)
                                   /\ lang s b).
    { rewrite cat_lang, Cat_inv. split; intros (a & b & E & La & Lb);
        exists a, b; repeat split; auto; now apply IHr. }
    rewrite (Cat_inv r s (String c x)).
    destruct (nullable r) eqn:N.
    + rewrite alt_lang, Alt_inv, Step, IHs. split.
      * intros [(a & b & -> & La & Lb) | L].
        -- exists (String c a), b. auto.
        -- exists "", (String c x). repeat split; auto.
           now apply nullable_lang.
      * intros (a & b & E & La & Lb). destruct a as [| d a].
        -- rewrite append_nil_l in E. subst b. auto.
        -- rewrite append_cons in E. injection E as <- ->. left. eauto.
    + rewrite Step. split.
      * intros (a & b & -> & La & Lb). exists (String c a), b. auto.
      * intros (a & b & E & La & Lb). destruct a as [| d a].
        -- apply nullable_lang in La. congruence.
        -- rewrite append_cons in E. injection E as <- ->. eauto.
  - rewrite alt_lang, !Alt_inv, IHr, IHs. tauto.
  - rewrite cat_lang, Cat_inv. split.
    + intros (a & b & -> & La & Lb). apply IHr in La.
      rewrite <- append_cons. now constructor.
    + intros L. apply Star_cons in L as (a & b & -> & La & Lb).
      exists a, b. repeat split; auto. now apply IHr.
Qed.

(** Matching by derivatives decides the language of the pattern. *)
Lemma MatchString_lang r s : MatchString r s = true <-> lang r s.
Proof.
  revert r. induction s as [| c s IH]; intros r; simpl.
  - apply nullable_lang.
  - rewrite IH. apply deriv_lang.
Qed.

Lemma all_append p a b : all p (a +:+ b) = all p a && all p b.
Proof.
  induction a as [| c a IH]; [reflexivity |].
  rewrite append_cons. simpl. rewrite IH. apply andb_assoc.
Qed.

Lemma Star_Class p s : lang (Star (Class p)) s <-> all p s = true.
Proof.
  split.
  - intros L. remember (Star (Class p)) as q eqn:Q.
    induction L; try discriminate; [reflexivity |].
    injection Q as ->. apply Class_inv in L1 as (c & -> & P).
    rewrite append_cons, append_nil_l. simpl. rewrite P. now apply IHL2.
  - induction s as [| c s IH]; simpl; [constructor |].
    intros A. apply andb_prop in A as [P A].
    change (String c s) with (String c "" +:+ s).
    constructor; [now constructor | auto].
Qed.

Lemma Rep_Class p n s :
  lang (Rep n (Class p)) s <-> String.length s = n /\ all p s = true.
Proof.
  revert s. induction n as [| n IH]; intros s; simpl.
  - rewrite Eps_inv. split; [intros ->; auto |].
    intros [L _]. destruct s; [reflexivity | discriminate].
  - rewrite Cat_inv. split.
    + intros (a & b & -> & La & Lb). apply Class_inv in La as (c & -> & P).
      apply IH in Lb as [<- A]. rewrite append_cons, append_nil_l. simpl.
      rewrite P. auto.
    + intros [L A]. destruct s as [| c s]; [discriminate |].
      simpl in *. apply andb_prop in A as [P A].
      exists (String c ""), s. repeat split; [now constructor |].
      apply IH. split; [congruence | exact A].
Qed.

Lemma Rep_Opt_Class p n s :
  lang (Rep n (Opt (Class p))) s
  <-> (String.length s <= n)%nat /\ all p s = true.
Proof.
  revert s. induction n as [| n IH]; intros s; simpl.
  - rewrite Eps_inv. split; [intros ->; auto |].
    intros [L _]. destruct s; [reflexivity | simpl in L; lia].
  - rewrite Cat_inv. unfold Opt at 1. split.
    + intros (a & b & -> & La & Lb). apply IH in Lb as [Lb A].
      apply Alt_inv in La as [La | La].
      * apply Eps_inv in La as ->. rewrite append_nil_l. split; [lia | auto].
      * apply Class_inv in La as (c & -> & P).
        rewrite append_cons, append_nil_l. simpl. rewrite P. split; [lia | auto].
    + intros [L A]. destruct s as [| c s].
      * exists "", "". repeat split; [apply lang_Alt_l; constructor |].
        apply IH. split; [simpl; lia | reflexivity].
      * simpl in *. apply andb_prop in A as [P A].
        exists (String c ""), s.
        repeat split; [apply lang_Alt_r; now constructor |].
        apply IH. split; [lia | exact A].
Qed.

Lemma Plus_Class p s :
  lang (Plus (Class p)) s <-> s <> "" /\ all p s = true.
Proof.
  unfold Plus. rewrite Cat_inv. split.
  - intros (a & b & -> & La & Lb). apply Class_inv in La as (c & -> & P).
    apply Star_Class in Lb. rewrite append_cons, append_nil_l. simpl.
    rewrite P. split; [discriminate | auto].
  - intros [N A]. destruct s as [| c s]; [congruence |].
    simpl in A. apply andb_prop in A as [P A].
    exists (String c ""), s. repeat split; [now constructor |].
    now apply Star_Class.
Qed.

Lemma AtLeast_Class p n s :
  lang (AtLeast n (Class p)) s
  <-> (n <= String.length s)%nat /\ all p s = true.
Proof.
  unfold AtLeast. rewrite Cat_inv. split.
  - intros (a & b & -> & La & Lb). apply Rep_Class in La as [<- A].
    apply Star_Class in Lb. rewrite length_append, all_append, A, Lb.
    split; [lia | reflexivity].
  - revert s. induction n as [| n IH]; intros s [L A].
    + exists "", s. repeat split; [constructor | now apply Star_Class].
    + destruct s as [| c s]; [simpl in L; lia |].
      simpl in *. apply andb_prop in A as [P A].
      destruct (IH s) as (a & b & -> & La & Lb); [split; [lia | auto] |].
      exists (String c a), b. repeat split; auto.
      change (String c a) with (String c "" +:+ a).
      constructor; [now constructor | exact La].
Qed.

Lemma Between_Class p m n s :
  (m <= n)%nat ->
  lang (Between m n (Class p)) s
  <-> (m <= String.length s <= n)%nat /\ all p s = true.
Proof.
  intros Le. unfold Between. rewrite Cat_inv. split.
  - intros (a & b & -> & La & Lb). apply Rep_Class in La as [<- A].
    apply Rep_Opt_Class in Lb as [Lb B].
    rewrite length_append, all_append, A, B. split; [lia | reflexivity].
  - revert s. induction m as [| m IH] in n, Le |- *; intros s [L A].
    + exists "", s. repeat split; [constructor |].
      apply Rep_Opt_Class. split; [lia | auto].
    + destruct s as [| c s]; [simpl in L; lia |].
      destruct n as [| n]; [lia |].
      simpl in *. apply andb_prop in A as [P A].
      destruct (IH n ltac:(lia) s) as (a & b & -> & La & Lb);
        [split; [lia | auto] |].
      exists (String c a), b. repeat split; auto.
      change (String c a) with (String c "" +:+ a).
      constructor; [now constructor | exact La].
Qed.

Lemma lit_lang a s : lang (lit a) s <-> s = String a "".
Proof.
  unfold lit. rewrite Class_inv. split.
  - intros (c & -> & E). apply Ascii.eqb_eq in E. now subst.
  - intros ->. exists a. split; [reflexivity | apply Ascii.eqb_refl].
Qed.

(** X1: [ValidateEmail] accepts exactly the texts of the form
    [local@domain.tld]: a non-empty local part of letters, digits and
    [._%+-], a non-empty domain of letters, digits and [.-], and after the
    last part's dot at least two letters. *)
Theorem ValidateEmail_shape (s : string) :
  utils.ValidateEmail s = true
  <-> exists l d t,
        s = l +:+ "@" +:+ d +:+ "." +:+ t
        /\ l <> "" /\ all email_local l = true
        /\ d <> "" /\ all email_domain d = true
        /\ (2 <= String.length t)%nat /\ all alpha t = true.
Proof.
  unfold utils.ValidateEmail, utils.emailRegex.
  rewrite MatchString_lang, Cat_inv. split.
  - intros (l & r1 & -> & Ll & L).
    apply Cat_inv in L as (at_ & r2 & -> & La & L).
    apply Cat_inv in L as (d & r3 & -> & Ld & L).
    apply Cat_inv in L as (dot & t & -> & Lo & Lt).
    apply lit_lang in La as ->. apply lit_lang in Lo as ->.
    apply Plus_Class in Ll as [Nl Al]. apply Plus_Class in Ld as [Nd Ad].
    apply AtLeast_Class in Lt as [Nt At].
    exists l, d, t. repeat split; auto.
  - intros (l & d & t & -> & Nl & Al & Nd & Ad & Nt & At).
    exists l, ("@" +:+ d +:+ "." +:+ t).
    split; [reflexivity |]. split; [now apply Plus_Class |].
    apply Cat_inv. exists "@", (d +:+ "." +:+ t).
    split; [reflexivity |]. split; [now apply lit_lang |].
    apply Cat_inv. exists d, ("." +:+ t).
    split; [reflexivity |]. split; [now apply Plus_Class |].
    apply Cat_inv. exists ".", t.
    split; [reflexivity |]. split; [now apply lit_lang |].
    now apply AtLeast_Class.
Qed.

(** X2: [ValidatePhone] accepts exactly the empty text and the texts made
    of an optional leading [+] followed by 10 to 15 characters, each a
    digit, a blank ([\s]), a hyphen or a parenthesis. *)
Theorem ValidatePhone_shape (s : string) :
  utils.ValidatePhone s = true
  <-> s = ""
      \/ exists digits,
           (s = digits \/ s = "+" +:+ digits)
           /\ (10 <= String.length digits <= 15)%nat
           /\ all phone_char digits = true.
Proof.
  unfold utils.ValidatePhone, utils.phoneRegex.
  destruct (String.eqb_spec s "") as [-> | N]; [tauto |].
  rewrite MatchString_lang, Cat_inv. split.
  - intros (plus & b & -> & Lp & Lb). right. exists b.
    apply (Between_Class _ 10 15) in Lb as [Len A]; [| lia].
    split; [| auto].
    apply Alt_inv in Lp as [Lp | Lp].
    + apply Eps_inv in Lp as ->. auto.
    + apply lit_lang in Lp as ->. auto.
  - intros [-> | (b & E & Len & A)]; [congruence |].
    assert (Lb : lang (Between 10 15 (Class phone_char)) b)
      by (apply Between_Class; [lia | auto]).
    destruct E as [-> | ->].
    + exists "", b. repeat split; [apply lang_Alt_l; constructor | exact Lb].
    + exists "+", b.
      repeat split; [apply lang_Alt_r; now apply lit_lang | exact Lb].
Qed.

Lemma chars_le_length (s : string) : gorm.chars s <= Z.of_nat (String.length s).
Proof.
  induction s as [| c s IH]; simpl gorm.chars; simpl String.length; [lia |].
  destruct (Z.land _ 192 =? 128); lia.
Qed.

(** X3: a phone number that passes [ValidatePhone] has at most 16 bytes
    (15 and the [+]), so it fits the 20-character column of the table. *)
Theorem valid_phone_fits (s : string) :
  utils.ValidatePhone s = true ->
  (String.length s <= 16)%nat /\ gorm.chars s <= 20.
Proof.
  intros V. assert (L : (String.length s <= 16)%nat).
  { apply ValidatePhone_shape in V as [-> | (b & [-> | ->] & Len & _)];
      rewrite ?append_cons, ?append_nil_l; simpl; lia. }
  split; [exact L |]. pose proof (chars_le_length s). lia.
Qed.

End patterns.

(** ** The authentication middleware *)
Section auth.
Import middleware.

Lemma HasPrefix_split (s p : string) :
  HasPrefix s p = true <-> exists t, s = p +:+ t.
Proof.
  revert s. induction p as [| a p IH]; intros s; simpl.
  - split; [intros _; exists s; reflexivity | reflexivity].
  - destruct s as [| b s].
    + split; [discriminate | intros [t E]; discriminate].
    + rewrite andb_true_iff, Ascii.eqb_eq, IH. split.
      * intros [-> [t ->]]. exists t. reflexivity.
      * intros [t E]. injection E as -> ->. eauto.
Qed.

Lemma from_append (p t : string) : from (String.length p) (p +:+ t) = t.
Proof.
  induction p as [| a p IH]; simpl; [destruct t; reflexivity | exact IH].
Qed.

(** X4: [SimpleAuth] lets a request through exactly when its path is
    [/health] or its [Authorization] header is [Bearer ] followed by a token
    of ten bytes or more; every such token is taken for user [user_123] with
    role [admin].  Every other request is answered 401. *)
Theorem SimpleAuth_passes (c : Request) :
  match SimpleAuth c with
  | Next locals =>
      (Path c = "/health" /\ locals = [])
      \/ (Path c <> "/health" /\ bearer c
          /\ locals = [("user_id", "user_123"); ("user_role", "admin")])
  | Stop r => status r = 401 /\ Path c <> "/health" /\ ~ bearer c
  end.
Proof.
  unfold SimpleAuth, bearer.
  destruct (String.eqb_spec (Path c) "/health") as [P | P]; [auto |].
  destruct (String.eqb_spec (Authorization c) "") as [A | A].
  { simpl. repeat split; auto. intros (t & E & _). rewrite A in E.
    discriminate. }
  destruct (HasPrefix (Authorization c) "Bearer ") eqn:B; simpl.
  - apply HasPrefix_split in B as [t E].
    unfold TrimPrefix. rewrite E.
    replace (HasPrefix ("Bearer " +:+ t) "Bearer ") with true
      by (symmetry; apply HasPrefix_split; eauto).
    rewrite (from_append "Bearer " t).
    destruct (String.eqb_spec t "") as [-> | N]; simpl.
    + repeat split; auto. intros (t' & E' & L).
      apply String.app_inj in E'. subst t'. simpl in L. lia.
    + destruct (Z.ltb_spec (Z.of_nat (String.length t)) 10); simpl.
      * repeat split; auto. intros (t' & E' & L).
        apply String.app_inj in E'. subst t'. lia.
      * right. repeat split; auto. exists t. split; [reflexivity | lia].
  - repeat split; auto. intros (t & E & _).
    assert (HasPrefix (Authorization c) "Bearer " = true)
      by (apply HasPrefix_split; eauto).
    congruence.
Qed.

End auth.

(** ** Create, further *)
Section create_more.
Context `{Runtime}.
Import controllers utils.

Lemma default_status_fields (a : Applicant) :
  Name (default_status a) = Name a /\ Position (default_status a) = Position a
  /\ Phone (default_status a) = Phone a /\ Notes (default_status a) = Notes a
  /\ Resume (default_status a) = Resume a
  /\ Status (default_status a)
     = (if String.eqb (Status a) "" then "pending" else Status a).
Proof.
  unfold default_status. destruct (String.eqb (Status a) ""); simpl; auto 10.
Qed.

(** What the four checks establish of an accepted body. *)
Lemma accepted_fields (a : Applicant) :
  accepted a = true ->
  strings_TrimSpace (Name a) <> "" /\ strings_TrimSpace (Position a) <> ""
  /\ ValidateEmail (normalized (Email a)) = true
  /\ ValidatePhone (strings_TrimSpace (Phone a)) = true
  /\ ValidateStatus (if String.eqb (Status a) "" then "pending" else Status a)
     = true.
Proof.
  unfold accepted, checks, sanitize, SanitizeString, normalized. simpl.
  intros A. apply andb_prop in A as [A S]. apply andb_prop in A as [A P].
  apply andb_prop in A as [R E].
  apply negb_true_iff, orb_false_elim in R as [R Rp].
  apply orb_false_elim in R as [Rn Re].
  repeat split.
  - intros Q. rewrite Q in Rn. discriminate.
  - intros Q. rewrite Q in Rp. discriminate.
  - exact E.
  - unfold ValidatePhone in *.
    destruct (String.eqb (strings_TrimSpace (Phone a)) ""); [reflexivity |].
    simpl in P. now apply negb_true_iff, negb_false_iff in P.
  - destruct (String.eqb (Status a) ""); [reflexivity |].
    simpl in S. now apply negb_true_iff, negb_false_iff in S.
Qed.

(** A Create that answers 201 and what it did. *)
Lemma CreateApplicant_201 (c : Ctx) (w : World) :
  status (fst (CreateApplicant c w)) = 201 ->
  exists a,
    body c = Some a /\ accepted a = true
    /\ fst (CreateApplicant c w)
       = {| status := 201;
            payload := ApplicantJSON (new_row (candidate a) w) |}
    /\ table (snd (CreateApplicant c w))
       = table w ++ [gorm.kept (new_row (candidate a) w)]
    /\ gorm.admissible (table w) (new_row (candidate a) w) = true.
Proof.
  intros S.
  destruct (CreateApplicant_created c w S) as [a [B [A [E [[e X] I]]]]].
  pose proof (store_new_insert _ _ _ X) as Ins. cbv zeta in Ins.
  rewrite I, <- E in Ins. destruct Ins as [R [T _]].
  exists a. repeat split; auto.
  unfold inserts in I. now apply andb_prop in I as [_ I].
Qed.

(** X5: the record a Create answers with (201) is in the table (with its
    time stamps as the columns store them) and is the body as sanitized and
    checked: name, position, phone and notes trimmed,
    the address trimmed and lowercased and well-formed, name and position
    not empty, the phone number empty or well-formed, the status the
    supplied one or [pending] and one of the allowed five, and the resume as
    supplied (it is not trimmed). *)
Theorem created_record_checked (c : Ctx) (w : World) :
  status (fst (CreateApplicant c w)) = 201 ->
  exists a row,
    body c = Some a
    /\ payload (fst (CreateApplicant c w)) = ApplicantJSON row
    /\ In (gorm.kept row) (table (snd (CreateApplicant c w)))
    /\ Name row = strings_TrimSpace (Name a) /\ Name row <> ""
    /\ Email row = normalized (Email a) /\ ValidateEmail (Email row) = true
    /\ Position row = strings_TrimSpace (Position a) /\ Position row <> ""
    /\ Phone row = strings_TrimSpace (Phone a)
    /\ ValidatePhone (Phone row) = true
    /\ Status row = (if String.eqb (Status a) "" then "pending" else Status a)
    /\ ValidateStatus (Status row) = true
    /\ Notes row = strings_TrimSpace (Notes a)
    /\ Resume row = Resume a.
Proof.
  intros S. destruct (CreateApplicant_201 c w S) as (a & B & A & R & T & _).
  destruct (accepted_fields a A) as (Vn & Vp & Ve & Vph & Vs).
  destruct (default_status_fields (sanitize a)) as (Fn & Fp & Fph & Fno & Fr & Fs).
  exists a, (new_row (candidate a) w).
  assert (St : Status (new_row (candidate a) w)
               = (if String.eqb (Status a) "" then "pending" else Status a)).
  { unfold new_row. simpl. unfold candidate. rewrite Fs. simpl.
    destruct (String.eqb (Status a) "") eqn:Q; [reflexivity |]. now rewrite Q. }
  assert (Nm : Name (new_row (candidate a) w) = strings_TrimSpace (Name a))
    by (unfold new_row; simpl; unfold candidate; now rewrite Fn).
  assert (Ps : Position (new_row (candidate a) w)
               = strings_TrimSpace (Position a))
    by (unfold new_row; simpl; unfold candidate; now rewrite Fp).
  assert (Ph : Phone (new_row (candidate a) w) = strings_TrimSpace (Phone a))
    by (unfold new_row; simpl; unfold candidate; now rewrite Fph).
  assert (No : Notes (new_row (candidate a) w) = strings_TrimSpace (Notes a))
    by (unfold new_row; simpl; unfold candidate; now rewrite Fno).
  assert (Re : Resume (new_row (candidate a) w) = Resume a)
    by (unfold new_row; simpl; unfold candidate; now rewrite Fr).
  assert (Em : Email (new_row (candidate a) w) = normalized (Email a))
    by (unfold new_row; simpl; apply candidate_Email).
  split; [exact B |]. split; [now rewrite R |].
  split; [rewrite T; apply in_or_app; right; left; reflexivity |].
  rewrite Nm, Ps, Ph, No, Re, Em, St. repeat split; auto.
Qed.



(** X7: Create answers 400 exactly for a body that does not parse or
    fails a check, and then it has made no store call and no cache call: the
    world is as it was. *)
Theorem create_400_untouched (c : Ctx) (w : World) :
  (status (fst (CreateApplicant c w)) = 400
   <-> body c = None \/ exists a, body c = Some a /\ accepted a = false)
  /\ (status (fst (CreateApplicant c w)) = 400 ->
      snd (CreateApplicant c w) = w).
Proof.
  destruct (body c) as [a |] eqn:B.
  - destruct (accepted a) eqn:A.
    + rewrite (CreateApplicant_accepted c w a B A).
      assert (N : status (fst (store_new (candidate a) w)) <> 400).
      { destruct (existing (candidate a) w) as [e | b] eqn:X.
        - pose proof (store_new_insert _ _ _ X) as Ins. cbv zeta in Ins.
          destruct (inserts (candidate a) w); destruct Ins as [-> _];
            discriminate.
        - rewrite (store_new_conflict _ _ _ X). discriminate. }
      split; [| tauto]. split; [tauto |].
      intros [Q | (a' & [= <-] & Q)]; congruence.
    + destruct (CreateApplicant_rejected c w a B A) as [msg ->]. simpl.
      split; [| reflexivity]. split; [eauto | reflexivity].
  - rewrite (CreateApplicant_no_body c w B). simpl.
    split; [| reflexivity]. split; [auto | reflexivity].
Qed.

End create_more.

(** ** Update and Delete, further *)
Section more.
Context `{Runtime}.
Import controllers utils.

(** X8: a Create, Update or Delete that does not answer with its success
    status leaves the table and the cache as they were. *)
Theorem failed_mutation_changes_nothing (m : Mutation) (c : Ctx) (w : World) :
  status (fst (handler m c w)) <> success m ->
  table (snd (handler m c w)) = table w
  /\ cache (snd (handler m c w)) = cache w.
Proof.
  destruct m; simpl; intros S.
  - destruct (body c) as [a |] eqn:B.
    2:{ rewrite (CreateApplicant_no_body c w B). auto. }
    destruct (accepted a) eqn:A.
    2:{ destruct (CreateApplicant_rejected c w a B A) as [msg ->]. auto. }
    rewrite (CreateApplicant_accepted c w a B A) in *.
    destruct (existing (candidate a) w) as [e | b] eqn:X.
    + pose proof (store_new_insert _ _ _ X) as Ins. cbv zeta in Ins.
      destruct (inserts (candidate a) w).
      * destruct Ins as [R _]. rewrite R in S. now destruct S.
      * tauto.
    + rewrite (store_new_conflict _ _ _ X). auto.
  - pose proof (UpdateApplicant_run c w) as R. cbv zeta in R.
    destruct (found c w); [tauto |]. destruct (body c); [| tauto].
    destruct (updates _ _ w); [| tauto].
    destruct R as [R _]. rewrite R in S. now destruct S.
  - pose proof (DeleteApplicant_run c w) as R. cbv zeta in R.
    destruct (found c w); [tauto |]. destruct (deletes a w); [| tauto].
    destruct R as [R _]. rewrite R in S. now destruct S.
Qed.




(** X12: an Update that answers 200 answers with the record it found,
    each text field its body supplies written exactly as supplied (no
    trimming, no case folding, no check), the others kept, and the
    modification time set to the time of the update; and when that record
    is a live row of the table (as under a decimal id it is), the row is in
    the table with the same text fields and that time as the column stores
    it. *)
Theorem update_writes_verbatim (c : Ctx) (u : Applicant) (w : World) :
  body c = Some u ->
  status (fst (UpdateApplicant c w)) = 200 ->
  exists a r',
    found c w = inr a
    /\ payload (fst (UpdateApplicant c w)) = ApplicantJSON r'
    /\ Forall (fun f : Applicant -> string =>
                 f r' = if String.eqb (f u) "" then f a else f u)
         text_fields
    /\ UpdatedAt r' = now w
    /\ (In a (table w) -> DeletedAt a = None ->
        exists s',
          In s' (table (snd (UpdateApplicant c w)))
          /\ ID s' = ID r'
          /\ Forall (fun f : Applicant -> string => f s' = f r') text_fields
          /\ UpdatedAt s' = stored_time (now w)).
Proof.
  intros B S. pose proof (UpdateApplicant_run c w) as R. cbv zeta in R.
  destruct (found c w) as [e | a] eqn:F.
  { destruct R as [R _]. rewrite R in S. discriminate. }
  rewrite B in R. destruct (updates a u w).
  2:{ destruct R as [R _]. rewrite R in S. discriminate. }
  destruct R as [-> [-> _]].
  exists a, (gorm.merge (now w) u a).
  split; [reflexivity |]. split; [reflexivity |].
  split; [unfold text_fields; repeat constructor |].
  split; [reflexivity |]. intros I L.
  exists (gorm.written (now w) u a).
  split; [| split; [reflexivity |
            split; [unfold text_fields; repeat constructor | reflexivity]]].
  unfold updated. apply in_map_iff. exists a. split; [| exact I].
  unfold gorm.target, gorm.live. now rewrite Z.eqb_refl, L.
Qed.

(** X13: an Update of a live row of the table that supplies the address
    of another row of the table (live or soft-deleted) answers Internal
    (500) and leaves the table as it was: the unique constraint refuses
    it. *)
Theorem update_to_taken_email (c : Ctx) (a u other : Applicant) (w : World) :
  found c w = inr a -> In a (table w) -> DeletedAt a = None ->
  body c = Some u -> Email u <> "" ->
  In other (table w) -> ID other <> ID a -> Email other = Email u ->
  fst (UpdateApplicant c w)
    = {| status := 500; payload := ErrorJSON "Failed to update applicant" |}
  /\ table (snd (UpdateApplicant c w)) = table w.
Proof.
  intros F I L B Ne Io Nid Eo.
  pose proof (UpdateApplicant_run c w) as R. cbv zeta in R.
  rewrite F, B in R.
  assert (U : updates a u w = false).
  { unfold updates. destruct (forallb _ (table w)) eqn:Q;
      [| apply andb_false_r].
    rewrite forallb_forall in Q.
    specialize (Q a I).
    assert (T : gorm.target a a = true)
      by (unfold gorm.target, gorm.live; now rewrite Z.eqb_refl, L).
    rewrite T in Q. simpl in Q.
    unfold gorm.admissible in Q. apply andb_prop in Q as [_ Q].
    unfold gorm.email_free in Q. rewrite forallb_forall in Q.
    assert (Oth : In other (List.filter (fun r => negb (gorm.target a r))
                              (table w))).
    { apply filter_In. split; [exact Io |]. unfold gorm.target.
      apply Z.eqb_neq in Nid. now rewrite Nid. }
    specialize (Q other Oth). simpl in Q. unfold gorm.pick in Q.
    destruct (String.eqb_spec (Email u) ""); [congruence |].
    rewrite Eo, String.eqb_refl in Q. discriminate. }
  rewrite U in R. tauto.
Qed.

(** X21: an [:id] that is not a decimal number is not refused.  It is the
    condition of the lookup, and the handlers go on with whatever row the
    server answers with: Get answers 200 with it, and Delete soft-deletes
    the live rows that carry its id (when it has one, and the statement
    reaches the store), which the request does not name.  Get and Delete
    answer NotFound (404) when the server answers with no row or rejects
    the text. *)
Theorem id_text_is_a_condition (c : Ctx) (w : World) :
  snd (strconv.Atoi (id_param c)) <> None -> id_param c <> "" ->
  db_down w = false ->
  match sql_first (id_param c) (table w) with
  | Some (Some r) =>
      fst (GetApplicant c w)
        = {| status := 200; payload := ApplicantJSON r |}
      /\ (deletes r w = true ->
          status (fst (DeleteApplicant c w)) = 200
          /\ table (snd (DeleteApplicant c w))
             = soft_deleted (now w) r (table w))
  | _ =>
      fst (GetApplicant c w) = not_found
      /\ fst (DeleteApplicant c w) = not_found
  end.
Proof.
  intros NaN NE Up.
  assert (F : found c w
              = match sql_first (id_param c) (table w) with
                | Some (Some r) => inr r
                | Some None => inl gorm.ErrRecordNotFound
                | None => inl gorm.ErrStatement
                end).
  { unfold found, gorm.inline. rewrite Up.
    destruct (strconv.Atoi (id_param c)) as [n [e |]]; [| now destruct NaN].
    apply String.eqb_neq in NE. now rewrite NE. }
  pose proof (DeleteApplicant_run c w) as D. cbv zeta in D.
  rewrite GetApplicant_reply. rewrite F in *.
  destruct (sql_first (id_param c) (table w)) as [[r |] |].
  - split; [reflexivity |].
    intros Y. rewrite Y in D. destruct D as [-> [-> _]]. auto.
  - destruct D as [-> _]. auto.
  - destruct D as [-> _]. auto.
Qed.

End more.

(** ** Listing and the cache, further *)
Section listing_more.
Context `{Runtime}.
Import controllers utils.

Lemma cacheKey_inj (p l p' l' : Z) :
  cacheKey p l = cacheKey p' l' -> p = p' /\ l = l'.
Proof.
  unfold cacheKey. intros E. simpl in E. injection E as E.
  apply split_unique in E; auto using Itoa_no_underscore.
  destruct E as [Ep E]. injection E as E.
  split; apply Itoa_inj; assumption.
Qed.

Lemma In_commonKeys (page limit : Z) :
  In (cacheKey page limit) commonKeys
  <-> page = 1 /\ (limit = 10 \/ limit = 20).
Proof.
  split.
  - intros [E | [E | []]];
      [change "applicants_page_1_limit_10" with (cacheKey 1 10) in E
      |change "applicants_page_1_limit_20" with (cacheKey 1 20) in E];
      symmetry in E; apply cacheKey_inj in E as [-> ->]; auto.
  - intros [-> [-> | ->]]; [left | right; left]; reflexivity.
Qed.

(** X15: the keys a mutation clears are the keys List derives for page 1
    with limit 10 and for page 1 with limit 20, and for no other (page,
    limit). *)
Theorem commonKeys_pages (page limit : Z) :
  In (cacheKey page limit) commonKeys
  <-> page = 1 /\ (limit = 10 \/ limit = 20).
Proof.
  change commonKeys with [cacheKey 1 10; cacheKey 1 20]. simpl. split.
  - intros [E | [E | []]]; apply cacheKey_inj in E as [<- <-]; auto.
  - intros [-> [-> | ->]]; auto.
Qed.

Lemma In_take {A} (n : nat) (l : list A) (x : A) : In x (take n l) -> In x l.
Proof.
  revert l. induction n as [| n IH]; intros [| y l]; simpl; try tauto.
  intros [-> | I]; auto.
Qed.

Lemma In_drop {A} (n : nat) (l : list A) (x : A) : In x (drop n l) -> In x l.
Proof.
  revert l. induction n as [| n IH]; intros [| y l]; simpl; try tauto.
  intros I. right. auto.
Qed.

Lemma window_In (offset limit : Z) (l : list Applicant) (x : Applicant) :
  In x (gorm.window offset limit l) -> In x l.
Proof.
  unfold gorm.window. intros I.
  destruct (0 <=? limit); [apply In_take in I |];
    destruct (0 <? offset); auto; now apply In_drop in I.
Qed.

Lemma window_length (offset limit : Z) (l : list Applicant) :
  0 <= limit -> Z.of_nat (length (gorm.window offset limit l)) <= limit.
Proof.
  unfold gorm.window. intros L.
  destruct (Z.leb_spec 0 limit); [| lia].
  match goal with |- context [length (take ?n ?k)] =>
    pose proof (firstn_le_length n k) end.
  lia.
Qed.

(** The reply of a List that went to the store. *)
Lemma GetApplicants_from_store (c : Ctx) (w : World) :
  redis_down w = true \/ cached w (cacheKey (pageInt c) (limitInt c)) = None ->
  db_down w = false ->
  fst (GetApplicants c w)
  = {| status := 200;
       payload := PageJSON (page_rows c w) (pageInt c) (limitInt c) |}.
Proof.
  intros [R | C] D.
  - rewrite (GetApplicants_fallback c w R). cbv zeta. simpl. now rewrite D.
  - destruct (redis_down w) eqn:R.
    + rewrite (GetApplicants_fallback c w R). cbv zeta. simpl. now rewrite D.
    + rewrite (GetApplicants_miss c w R C). cbv zeta. now rewrite D.
Qed.

(** X16: a List that goes to the store (cache miss or cache unreachable)
    and reaches it answers 200 with live rows of the table only, and with no
    more rows than a positive limit allows. *)
Theorem store_page_is_live (c : Ctx) (w : World) :
  redis_down w = true \/ cached w (cacheKey (pageInt c) (limitInt c)) = None ->
  db_down w = false ->
  exists data,
    fst (GetApplicants c w)
    = {| status := 200; payload := PageJSON data (pageInt c) (limitInt c) |}
    /\ Forall (fun r => In r (table w) /\ DeletedAt r = None) data
    /\ (0 < limitInt c -> Z.of_nat (length data) <= limitInt c).
Proof.
  intros P D. exists (page_rows c w).
  split; [now apply GetApplicants_from_store |]. split.
  - apply List.Forall_forall. intros r I. unfold page_rows in I.
    apply window_In, filter_In in I as [I L].
    split; [exact (Permutation_in r (scan_perm (table w)) I) |].
    unfold gorm.live in L. destruct (DeletedAt r); [discriminate | auto].
  - intros L. apply window_length. lia.
Qed.



Lemma mutation_cache (m : Mutation) (c : Ctx) (w : World) :
  status (fst (handler m c w)) = success m ->
  cache (snd (handler m c w)) = cleared w.
Proof.
  destruct m; simpl; intros S.
  - destruct (CreateApplicant_created c w S) as [a [B [A [E [[e X] I]]]]].
    pose proof (store_new_insert _ _ _ X) as Ins. cbv zeta in Ins.
    rewrite I, <- E in Ins. tauto.
  - pose proof (UpdateApplicant_run c w) as R. cbv zeta in R.
    destruct (found c w) as [e | a].
    { destruct R as [R _]. rewrite R in S. discriminate. }
    destruct (body c) as [u |].
    2:{ destruct R as [R _]. rewrite R in S. discriminate. }
    destruct (updates a u w); [tauto |].
    destruct R as [R _]. rewrite R in S. discriminate.
  - pose proof (DeleteApplicant_run c w) as R. cbv zeta in R.
    destruct (found c w) as [e | a].
    { destruct R as [R _]. rewrite R in S. discriminate. }
    destruct (deletes a w); [tauto |].
    destruct R as [R _]. rewrite R in S. discriminate.
Qed.

Lemma cleared_lookup (w : World) (key : string) :
  cleared w !! key
  = if redis_down w then cache w !! key
    else if bool_decide (In key commonKeys) then None else cache w !! key.
Proof.
  unfold cleared. destruct (redis_down w); [reflexivity |].
  unfold commonKeys. simpl.
  destruct (decide (key = "applicants_page_1_limit_10")) as [-> | N1].
  { rewrite lookup_delete_eq. rewrite bool_decide_eq_true_2; auto. }
  rewrite lookup_delete_ne by auto.
  destruct (decide (key = "applicants_page_1_limit_20")) as [-> | N2].
  { rewrite lookup_delete_eq. rewrite bool_decide_eq_true_2; auto. }
  rewrite lookup_delete_ne by auto.
  rewrite bool_decide_eq_false_2; [reflexivity |]. intros [E | [E | []]]; auto.
Qed.

(** X18: a page cached under a key other than the two common ones
    outlives every successful mutation: until its entry expires, a List for
    that page and limit is served the entry as it was cached, without a
    store call, whatever the mutation did to the table. *)
Theorem other_pages_stay_cached (m : Mutation) (c l : Ctx) (w : World)
    (v : string) (expiry : Z) :
  let key := cacheKey (pageInt l) (limitInt l) in
  status (fst (handler m c w)) = success m ->
  ~ (pageInt l = 1 /\ (limitInt l = 10 \/ limitInt l = 20)) ->
  cache w !! key = Some (v, expiry) ->
  forall w2,
    cache w2 = cache (snd (handler m c w)) ->
    now w2 < expiry -> redis_down w2 = false ->
    fst (GetApplicants l w2)
    = {| status := 200;
         payload := PageJSON (json_Unmarshal v) (pageInt l) (limitInt l) |}
    /\ added w2 (snd (GetApplicants l w2)) [RedisGet key].
Proof.
  intros key S N C w2 E T R.
  assert (K : cached w2 key = Some v).
  { unfold cached. rewrite E, (mutation_cache m c w S), cleared_lookup.
    rewrite bool_decide_eq_false_2 by (unfold key; now rewrite In_commonKeys).
    assert (Q : (if redis_down w then cache w !! key else cache w !! key)
                = Some (v, expiry)) by (destruct (redis_down w); exact C).
    rewrite Q. apply Z.ltb_lt in T. now rewrite T. }
  rewrite (GetApplicants_hit l w2 v R K). split; reflexivity.
Qed.

(** X19: after a successful mutation whose deletion reached the cache, a
    List of page 1 with limit 10 or 20 finds no entry and is answered from
    the store, with the rows of the table as it is then. *)
Theorem first_page_refreshed (m : Mutation) (c l : Ctx) (w : World) :
  status (fst (handler m c w)) = success m ->
  redis_down w = false ->
  pageInt l = 1 /\ (limitInt l = 10 \/ limitInt l = 20) ->
  forall w2,
    cache w2 = cache (snd (handler m c w)) ->
    redis_down w2 = false -> db_down w2 = false ->
    fst (GetApplicants l w2)
    = {| status := 200;
         payload := PageJSON (page_rows l w2) (pageInt l) (limitInt l) |}.
Proof.
  intros S R P w2 E R2 D2.
  apply GetApplicants_from_store; [| exact D2]. right.
  unfold cached. rewrite E, (mutation_cache m c w S), cleared_lookup, R.
  rewrite bool_decide_eq_true_2 by now apply In_commonKeys.
  reflexivity.
Qed.

(** X20: a page written to the cache at time [t] is served from the cache
    at every time before [t + 180 s], and from [t + 180 s] on the store is
    asked again. *)
Theorem cached_page_lifetime (c : Ctx) (w : World) :
  let key := cacheKey (pageInt c) (limitInt c) in
  let w' := snd (GetApplicants c w) in
  redis_down w = false -> cached w key = None -> db_down w = false ->
  hd false (tl (redis_faults w)) = false ->
  forall w2,
    cache w2 = cache w' -> redis_down w2 = false ->
    (now w2 < now w + 180 * time.Second ->
       fst (GetApplicants c w2)
       = {| status := 200;
            payload := PageJSON (json_Unmarshal (json_Marshal (page_rows c w)))
                         (pageInt c) (limitInt c) |}
       /\ added w2 (snd (GetApplicants c w2)) [RedisGet key])
    /\ (now w + 180 * time.Second <= now w2 -> db_down w2 = false ->
        fst (GetApplicants c w2)
        = {| status := 200;
             payload := PageJSON (page_rows c w2) (pageInt c) (limitInt c) |}).
Proof.
  intros key w' R C D S w2 E R2. subst w'.
  rewrite (GetApplicants_miss c w R C) in E. cbv zeta in E.
  rewrite D, S in E. simpl in E.
  assert (K : cached w2 key
              = if now w2 <? now w + 180 * time.Second
                then Some (json_Marshal (page_rows c w)) else None).
  { unfold cached. rewrite E. fold key. rewrite lookup_insert_eq.
    reflexivity. }
  split.
  - intros T. apply Z.ltb_lt in T. rewrite T in K.
    rewrite (GetApplicants_hit c w2 _ R2 K). split; reflexivity.
  - intros T D2. apply GetApplicants_from_store; [| exact D2]. right.
    fold key. rewrite K.
    destruct (Z.ltb_spec (now w2) (now w + 180 * time.Second)); [lia | auto].
Qed.

End listing_more.

(** ** Runs of the further properties *)
Section more_runs.
Import controllers middleware.
#[local] Existing Instance demo.runtime.

Lemma valid_phone_fits_witness :
  utils.ValidatePhone "+123456789012345" = true
  /\ String.length "+123456789012345" = 16%nat
  /\ gorm.chars "+123456789012345" <= 20.
Proof.
  assert (V : utils.ValidatePhone "+123456789012345" = true)
    by (vm_compute; reflexivity).
  destruct (valid_phone_fits "+123456789012345" V) as [_ C].
  split; [exact V |]. split; [reflexivity | exact C].
Defined.

Lemma created_record_checked_witness :
  status (fst (@CreateApplicant demo.runtime (demo.post jane) with_john)) = 201
  /\ exists row,
       payload (fst (@CreateApplicant demo.runtime (demo.post jane) with_john))
       = ApplicantJSON row
       /\ Status row = "reviewed" /\ Resume row = "  portfolio  "
       /\ utils.ValidateEmail (Email row) = true.
Proof.
  assert (S : status (fst (@CreateApplicant demo.runtime (demo.post jane)
                             with_john)) = 201) by (vm_compute; reflexivity).
  destruct (@created_record_checked demo.runtime (demo.post jane) with_john S)
    as (a & row & B & P & _ & _ & _ & _ & Ve & _ & _ & _ & _ & St & _ & _ & Re).
  injection B as <-.
  split; [exact S |]. exists row. repeat split; auto.
Defined.


Lemma create_400_untouched_witness :
  let c := demo.post (with_Email "not-an-email" jane) in
  status (fst (@CreateApplicant demo.runtime c with_john)) = 400
  /\ snd (@CreateApplicant demo.runtime c with_john) = with_john.
Proof.
  cbv zeta.
  assert (S : status (fst (@CreateApplicant demo.runtime
                             (demo.post (with_Email "not-an-email" jane))
                             with_john)) = 400) by (vm_compute; reflexivity).
  destruct (@create_400_untouched demo.runtime
              (demo.post (with_Email "not-an-email" jane)) with_john)
    as [_ U].
  split; [exact S | exact (U S)].
Defined.

Lemma failed_mutation_changes_nothing_witness :
  let c := demo.post demo.shouting_john in
  status (fst (@handler demo.runtime Create c with_two)) = 409
  /\ table (snd (@handler demo.runtime Create c with_two)) = table with_two
  /\ cache (snd (@handler demo.runtime Create c with_two)) = cache with_two.
Proof.
  cbv zeta.
  assert (S : status (fst (@handler demo.runtime Create
                             (demo.post demo.shouting_john) with_two)) = 409)
    by (vm_compute; reflexivity).
  split; [exact S |].
  apply (@failed_mutation_changes_nothing demo.runtime Create).
  rewrite S. discriminate.
Defined.



(** The path [/applicants/1=1]: Get answers with John Doe, the live row of
    least id, and Delete deletes him; the same Delete again deletes Jane
    Roe. *)
Lemma id_text_is_a_condition_witness :
  let c := demo.by_id "1=1" in
  let w' := snd (DeleteApplicant c with_two) in
  snd (strconv.Atoi (id_param c)) = Some strconv.ErrSyntax
  /\ (exists r, fst (GetApplicant c with_two)
                = {| status := 200; payload := ApplicantJSON r |}
                /\ ID r = 1)
  /\ status (fst (DeleteApplicant c with_two)) = 200
  /\ map DeletedAt (table w') = [Some 1000; None]
  /\ status (fst (DeleteApplicant c w')) = 200
  /\ map DeletedAt (table (snd (DeleteApplicant c w')))
     = [Some 1000; Some 1000].
Proof.
  cbv zeta.
  assert (E : snd (strconv.Atoi (id_param (demo.by_id "1=1")))
              = Some strconv.ErrSyntax) by reflexivity.
  assert (NaN : snd (strconv.Atoi (id_param (demo.by_id "1=1"))) <> None)
    by (rewrite E; discriminate).
  assert (NE : id_param (demo.by_id "1=1") <> "") by discriminate.
  pose proof (id_text_is_a_condition (demo.by_id "1=1") with_two
                NaN NE eq_refl) as T.
  assert (L : sql_first (id_param (demo.by_id "1=1")) (table with_two)
              = Some (Some (Build_Applicant 1 1000 1000 None "John Doe"
                              "john@example.com" "Software Engineer"
                              "pending" "+1234567890" ""
                              "Experienced developer")))
    by (vm_compute; reflexivity).
  rewrite L in T. destruct T as (G & D).
  destruct (D eq_refl) as [S Tb].
  split; [exact E |]. split; [eexists; split; [exact G | reflexivity] |].
  split; [exact S |].
  split; [rewrite Tb; vm_compute; reflexivity |].
  split; vm_compute; reflexivity.
Defined.

Lemma update_writes_verbatim_witness :
  let u := with_Status "ghosted" (with_Email " Jane@Example.ORG " models.zero) in
  let c := demo.put "2" u in
  status (fst (UpdateApplicant c with_two)) = 200
  /\ utils.ValidateStatus "ghosted" = false
  /\ exists r', payload (fst (UpdateApplicant c with_two)) = ApplicantJSON r'
                /\ Status r' = "ghosted" /\ Email r' = " Jane@Example.ORG "
                /\ Name r' = "Jane Roe"
                /\ exists s', In s' (table (snd (UpdateApplicant c with_two)))
                              /\ Email s' = " Jane@Example.ORG ".
Proof.
  cbv zeta.
  assert (S : status (fst (UpdateApplicant
                (demo.put "2" (with_Status "ghosted"
                               (with_Email " Jane@Example.ORG " models.zero)))
                with_two)) = 200) by (vm_compute; reflexivity).
  destruct (update_writes_verbatim
              (demo.put "2" (with_Status "ghosted"
                             (with_Email " Jane@Example.ORG " models.zero)))
              (with_Status "ghosted"
                 (with_Email " Jane@Example.ORG " models.zero))
              with_two eq_refl S)
    as (a & r' & F & P & V & _ & W).
  assert (Fa : a = Build_Applicant 2 1000 1000 None "Jane Roe"
                     "jane@example.org" "Designer" "reviewed"
                     "(555) 123-4567" "  portfolio  " "")
    by (vm_compute in F; now injection F as <-).
  subst a.
  destruct (W (or_intror (or_introl eq_refl)) eq_refl)
    as (s' & I & _ & Vs' & _).
  split; [exact S |]. split; [reflexivity |]. exists r'.
  unfold text_fields in V, Vs'.
  inversion V as [| ? ? Vn V1]; subst.
  inversion V1 as [| ? ? Ve V2]; subst.
  inversion V2 as [| ? ? Vp V3]; subst.
  inversion V3 as [| ? ? Vs _]; subst.
  inversion Vs' as [| ? ? _ W1]; subst.
  inversion W1 as [| ? ? We _]; subst.
  split; [exact P |]. split; [exact Vs |]. split; [exact Ve |].
  split; [exact Vn |]. exists s'. split; [exact I |]. now rewrite We.
Defined.

Lemma update_to_taken_email_witness :
  let u := with_Email "john@example.com" models.zero in
  fst (UpdateApplicant (demo.put "2" u) with_two)
  = {| status := 500; payload := ErrorJSON "Failed to update applicant" |}
  /\ table (snd (UpdateApplicant (demo.put "2" u) with_two)) = table with_two.
Proof.
  cbv zeta.
  set (john1 := Build_Applicant 1 1000 1000 None "John Doe"
                  "john@example.com" "Software Engineer" "pending"
                  "+1234567890" "" "Experienced developer").
  set (jane2 := Build_Applicant 2 1000 1000 None "Jane Roe"
                  "jane@example.org" "Designer" "reviewed"
                  "(555) 123-4567" "  portfolio  " "").
  assert (F : found (demo.put "2" (with_Email "john@example.com" models.zero))
                with_two = inr jane2) by (vm_compute; reflexivity).
  assert (I : In john1 (table with_two)) by (left; reflexivity).
  assert (N : ID john1 <> ID jane2) by discriminate.
  assert (Ne : Email (with_Email "john@example.com" models.zero) <> "")
    by discriminate.
  exact (update_to_taken_email
           (demo.put "2" (with_Email "john@example.com" models.zero)) jane2
           (with_Email "john@example.com" models.zero) john1 with_two F
           (or_intror (or_introl eq_refl)) eq_refl eq_refl Ne I N eq_refl).
Defined.

Lemma table_stays_consistent_witness :
  consistent (table with_john)
  /\ consistent
       (table (snd (@CreateApplicant demo.runtime (demo.post jane) with_john)))
  /\ consistent (table (snd (DeleteApplicant (demo.by_id "1") with_john))).
Proof.
  assert (C : consistent (table with_john)).
  { split; repeat constructor; intros []. }
  destruct (@table_stays_consistent demo.runtime (demo.post jane) with_john C)
    as (Cr & _).
  destruct (@table_stays_consistent demo.runtime (demo.by_id "1") with_john C)
    as (_ & _ & _ & _ & De).
  split; [exact C |]. split; [exact Cr | exact De].
Defined.

Lemma store_page_is_live_witness :
  let c := demo.list_with [] in
  cached john_deleted (cacheKey (@pageInt c) (@limitInt c)) = None
  /\ exists data,
       fst (@GetApplicants demo.runtime c john_deleted)
       = {| status := 200; payload := PageJSON data (pageInt c) (limitInt c) |}
       /\ Forall (fun r => In r (table john_deleted) /\ DeletedAt r = None) data.
Proof.
  cbv zeta.
  assert (K : cached john_deleted
                (cacheKey (pageInt (demo.list_with []))
                   (limitInt (demo.list_with []))) = None)
    by (vm_compute; reflexivity).
  destruct (@store_page_is_live demo.runtime (demo.list_with []) john_deleted
              (or_intror K) eq_refl) as (data & R & L & _).
  split; [exact K |]. exists data. split; [exact R | exact L].
Defined.


Lemma other_pages_stay_cached_witness :
  let l := demo.list_with [("page", "2")] in
  let w' := snd (@handler demo.runtime Delete (demo.by_id "2") page2_listed) in
  status (fst (@handler demo.runtime Delete (demo.by_id "2") page2_listed)) = 200
  /\ cache page2_listed !! cacheKey (pageInt l) (limitInt l)
     = Some ("", 180000001000)
  /\ fst (@GetApplicants demo.runtime l w')
     = {| status := 200;
          payload := PageJSON (demo.Unmarshal "") (pageInt l) (limitInt l) |}.
Proof.
  cbv zeta.
  assert (S : status (fst (@handler demo.runtime Delete (demo.by_id "2")
                             page2_listed)) = 200) by (vm_compute; reflexivity).
  assert (C : cache page2_listed
              !! cacheKey (pageInt (demo.list_with [("page", "2")]))
                   (limitInt (demo.list_with [("page", "2")]))
              = Some ("", 180000001000)) by (vm_compute; reflexivity).
  assert (N : ~ (pageInt (demo.list_with [("page", "2")]) = 1
                 /\ (limitInt (demo.list_with [("page", "2")]) = 10
                     \/ limitInt (demo.list_with [("page", "2")]) = 20))).
  { intros [P _]. vm_compute in P. discriminate. }
  assert (T : now (snd (@handler demo.runtime Delete (demo.by_id "2")
                          page2_listed)) < 180000001000)
    by (vm_compute; reflexivity).
  assert (R : redis_down (snd (@handler demo.runtime Delete (demo.by_id "2")
                                 page2_listed)) = false)
    by (vm_compute; reflexivity).
  destruct (@other_pages_stay_cached demo.runtime Delete (demo.by_id "2")
              (demo.list_with [("page", "2")]) page2_listed "" 180000001000
              S N C _ eq_refl T R) as [G _].
  split; [exact S |]. split; [exact C | exact G].
Defined.

Lemma first_page_refreshed_witness :
  let l := demo.list_with [] in
  let w' := snd (@handler demo.runtime Delete (demo.by_id "1") john_listed) in
  is_Some (cache john_listed !! "applicants_page_1_limit_10")
  /\ status (fst (@handler demo.runtime Delete (demo.by_id "1") john_listed))
     = 200
  /\ fst (@GetApplicants demo.runtime l w')
     = {| status := 200;
          payload := PageJSON (page_rows l w') (pageInt l) (limitInt l) |}
  /\ page_rows l w' = [].
Proof.
  cbv zeta.
  assert (S : status (fst (@handler demo.runtime Delete (demo.by_id "1")
                             john_listed)) = 200) by (vm_compute; reflexivity).
  assert (P : pageInt (demo.list_with []) = 1
              /\ (limitInt (demo.list_with []) = 10
                  \/ limitInt (demo.list_with []) = 20))
    by (split; [| left]; vm_compute; reflexivity).
  assert (R : redis_down (snd (@handler demo.runtime Delete (demo.by_id "1")
                                 john_listed)) = false)
    by (vm_compute; reflexivity).
  assert (D : db_down (snd (@handler demo.runtime Delete (demo.by_id "1")
                              john_listed)) = false)
    by (vm_compute; reflexivity).
  split; [vm_compute; eauto |]. split; [exact S |].
  split; [| vm_compute; reflexivity].
  exact (@first_page_refreshed demo.runtime Delete (demo.by_id "1")
           (demo.list_with []) john_listed S eq_refl P _ eq_refl R D).
Defined.

Lemma cached_page_lifetime_witness :
  let c := demo.list_with [] in
  let rows := page_rows c with_john in
  demo.Unmarshal (demo.Marshal rows) = rows
  /\ fst (@GetApplicants demo.runtime c (demo.later 179999999999 john_listed))
     = {| status := 200;
          payload := PageJSON (demo.Unmarshal (demo.Marshal rows))
                       (pageInt c) (limitInt c) |}
  /\ fst (@GetApplicants demo.runtime c (demo.later 180000000000 john_listed))
     = {| status := 200;
          payload := PageJSON (page_rows c
                                 (demo.later 180000000000 john_listed))
                       (pageInt c) (limitInt c) |}.
Proof.
  cbv zeta.
  assert (K : cached with_john
                (cacheKey (pageInt (demo.list_with []))
                   (limitInt (demo.list_with []))) = None)
    by (vm_compute; reflexivity).
  assert (E1 : cache (demo.later 179999999999 john_listed)
               = cache (snd (@GetApplicants demo.runtime (demo.list_with [])
                               with_john))) by (vm_compute; reflexivity).
  assert (E2 : cache (demo.later 180000000000 john_listed)
               = cache (snd (@GetApplicants demo.runtime (demo.list_with [])
                               with_john))) by (vm_compute; reflexivity).
  destruct (@cached_page_lifetime demo.runtime (demo.list_with []) with_john
              eq_refl K eq_refl eq_refl _ E1 eq_refl) as [Hit _].
  destruct (@cached_page_lifetime demo.runtime (demo.list_with []) with_john
              eq_refl K eq_refl eq_refl _ E2 eq_refl) as [_ Miss].
  split; [vm_compute; reflexivity |].
  split.
  - apply Hit. vm_compute. reflexivity.
  - apply Miss; [vm_compute; discriminate | reflexivity].
Defined.

End more_runs.
